(** * zod-ai: contract compilation, tool formatting and tool dispatch

    A shallow embedding of [src/util.ts] ([trimGeneratedJsonSchema]),
    [src/ai.ts] ([validateFunction], [makeAi]) and [src/tools.ts]
    ([formatTools], [handleToolCalls], [makeTool], [isToolCallRequested]),
    together with the part of the JavaScript runtime, of zod and of
    zod-to-json-schema those functions call into.

    Conventions.
    - JavaScript values are the type [Value]: JSON values plus [undefined].
      Numbers are the integers ([Z]): an integer stands for the double
      nearest to it, which is the integer itself up to 2^53 in magnitude.
      Fractions, NaN and the infinities are outside the model.
    - An object is the list of its own enumerable properties in enumeration
      order ([Object.entries] order).
    - A computation that may throw returns a [Completion]. *)

From Stdlib Require Import ZArith String Ascii DecimalString DecimalPos.
From stdpp Require Import base list strings.

Set Warnings "-register-all".

Local Open Scope string_scope.
Local Open Scope list_scope.

(** ** JavaScript values *)

Inductive Value : Type :=
| VUndefined
| VNull
| VBool (b : bool)
| VNumber (n : Z)
| VString (s : string)
| VArray (elements : list Value)
| VObject (properties : list (string * Value)).

(** An object with values of type [A]: own enumerable properties, in order. *)
Definition JsObject (A : Type) : Type := list (string * A).

(** [typeof v], with zod's refinement of "object" into null, array, object
    (zod's [getParsedType]). *)
Definition getParsedType (v : Value) : string :=
  match v with
  | VUndefined => "undefined"
  | VNull => "null"
  | VBool _ => "boolean"
  | VNumber _ => "number"
  | VString _ => "string"
  | VArray _ => "array"
  | VObject _ => "object"
  end.

Section Objects.
Context {A : Type}.

(** Own property lookup, [o[k]] without the prototype chain. *)
Fixpoint own_property (o : JsObject A) (k : string) : option A :=
  match o with
  | [] => None
  | (k', v) :: o' => if String.eqb k' k then Some v else own_property o' k
  end.

(** [k in o] for a plain object and a key that [Object.prototype] lacks. *)
Definition has_own (o : JsObject A) (k : string) : bool :=
  match own_property o k with Some _ => true | None => false end.

Definition keys (o : JsObject A) : list string := map fst o.

(** [const { k1, k2, ...rest } = o]: the properties left after removing
    the named ones, in their order. *)
Definition rest_without (excluded : list string) (o : JsObject A) : JsObject A :=
  List.filter (fun p => negb (existsb (String.eqb (fst p)) excluded)) o.
End Objects.

(** *** Property order

    A property whose key is an array index (a canonical numeric string below
    2^32 - 1) is enumerated before every other key, in ascending numeric
    order; the other keys follow in insertion order. *)

Definition is_digit (c : ascii) : bool :=
  (48 <=? nat_of_ascii c)%nat && (nat_of_ascii c <=? 57)%nat.

Fixpoint digits_value (s : string) (acc : N) : option N :=
  match s with
  | EmptyString => Some acc
  | String c s' =>
      if is_digit c
      then digits_value s' (10 * acc + (N_of_ascii c - 48))%N
      else None
  end.

Definition array_index (k : string) : option N :=
  match k with
  | EmptyString => None
  | String c rest =>
      if Ascii.eqb c "0"%char
      then match rest with EmptyString => Some 0%N | _ => None end
      else match digits_value k 0 with
           | Some n => if (n <=? 4294967294)%N then Some n else None
           | None => None
           end
  end.

Section ObjectUpdate.
Context {A : Type}.

Fixpoint replace_property (o : JsObject A) (k : string) (v : A) : JsObject A :=
  match o with
  | [] => []
  | (k', v') :: o' =>
      if String.eqb k' k then (k', v) :: o' else (k', v') :: replace_property o' k v
  end.

(** Where a new index key [n] goes: before the first property that is not
    an index key or has a larger index. *)
Fixpoint insert_index (o : JsObject A) (n : N) (k : string) (v : A) : JsObject A :=
  match o with
  | [] => [(k, v)]
  | (k', v') :: o' =>
      match array_index k' with
      | Some m => if (m <? n)%N then (k', v') :: insert_index o' n k v
                  else (k, v) :: (k', v') :: o'
      | None => (k, v) :: (k', v') :: o'
      end
  end.

(** [o[k] = v] on a plain object. *)
Definition set_property (o : JsObject A) (k : string) (v : A) : JsObject A :=
  if has_own o k then replace_property o k v
  else match array_index k with
       | Some n => insert_index o n k v
       | None => o ++ [(k, v)]
       end.
End ObjectUpdate.

(** [v.k] for a value [v] that is not [undefined] or [null]: the own
    property of an object, [undefined] otherwise. *)
Definition get_property (v : Value) (k : string) : Value :=
  match v with
  | VObject o => default VUndefined (own_property o k)
  | _ => VUndefined
  end.

(** ** Exceptions *)

Inductive PathSegment : Type :=
| Key (k : string)
| Index (i : nat).

(** zod's issues, as far as the modelled fragment raises them. *)
Inductive ZodIssue : Type :=
| invalid_type (expected received : string) (path : list PathSegment)
| too_small (minimum : nat) (path : list PathSegment)
| invalid_union (unionErrors : list (list ZodIssue))
| invalid_arguments (argumentsError : list ZodIssue)
| invalid_return_type (returnTypeError : list ZodIssue).

(** What the runtime raises on its own. *)
Inductive TypeErrorKind : Type :=
| ReadPropertyOfUndefined (property : string)
| NotAFunction (callee : string).

Inductive Exn : Type :=
| InvariantFailed (message : string)   (* tiny-invariant: invariant(false, message) *)
| TypeError (kind : TypeErrorKind)
| SyntaxError                          (* JSON.parse *)
| ZodError (issues : list ZodIssue)
| Thrown (v : Value).                  (* whatever a user-supplied function throws *)

Inductive Completion (A : Type) : Type :=
| Ok (a : A)
| Throw (e : Exn).
Arguments Ok {A} a.
Arguments Throw {A} e.

(** Sequencing: [x ← c; k] runs [k] unless [c] threw. *)
#[global] Instance Completion_ret : MRet Completion := @Ok.
#[global] Instance Completion_bind : MBind Completion :=
  fun A B k c => match c with Ok a => k a | Throw e => Throw e end.

(** [invariant(condition, message)] of tiny-invariant. *)
Definition invariant (condition : bool) (message : string) : Completion unit :=
  if condition then Ok tt else Throw (InvariantFailed message).

(** ** The JSON object of the runtime *)

Definition dquote : string := String (ascii_of_nat 34) EmptyString.
Definition backslash : string := String (ascii_of_nat 92) EmptyString.
Definition newline : string := String (ascii_of_nat 10) EmptyString.

(** *** Numbers

    [to_double n] is the double nearest to the integer [n], ties going to
    the even mantissa: what the runtime keeps of an integer literal. Below
    2^53 it is [n] itself; above 2^1024 the runtime has [Infinity], which
    is outside the model. *)
Definition to_double (n : Z) : Z :=
  let a := Z.abs n in
  let bits := (Z.log2 a + 1)%Z in
  if (bits <=? 53)%Z then n
  else
    let e := (bits - 53)%Z in
    let q := Z.shiftr a e in
    let r := (a - Z.shiftl q e)%Z in
    let half := Z.shiftl 1 (e - 1) in
    let q' := if (half <? r)%Z || ((half =? r)%Z && Z.odd q) then (q + 1)%Z else q in
    (Z.sgn n * Z.shiftl q' e)%Z.

(** Step 5 of [Number::toString] for a double [x] above 2^53: the pair
    [(s, j)] with the fewest digits [s] such that [s * 10^j] rounds to [x];
    of two such, the one nearest to [x], and then the even one. The search
    goes down from [j], which starts at the number of digits of [x]. Times
    four, the bounds of what rounds to [x] are integers: half the gap to
    the next double on each side, a quarter below a power of two. *)
Fixpoint shortest (fuel : nat) (x : Z) (j : Z) : Z * Z :=
  let e := (Z.log2 x + 1 - 53)%Z in
  let ulp := Z.shiftl 1 e in
  let mantissa := Z.shiftr x e in
  let inclusive := Z.even mantissa in
  let lo4 := (4 * x - (if (mantissa =? 2 ^ 52)%Z then ulp else 2 * ulp))%Z in
  let hi4 := (4 * x + 2 * ulp)%Z in
  let unit4 := (4 * 10 ^ j)%Z in
  let m_lo := if inclusive then ((lo4 + unit4 - 1) / unit4)%Z else (lo4 / unit4 + 1)%Z in
  let m_hi := if inclusive then (hi4 / unit4)%Z else ((hi4 - 1) / unit4)%Z in
  let m1 := (x / 10 ^ j)%Z in
  let m2 := (m1 + 1)%Z in
  let d1 := (x - m1 * 10 ^ j)%Z in
  let d2 := (m2 * 10 ^ j - x)%Z in
  let in1 := (m_lo <=? m1)%Z && (m1 <=? m_hi)%Z in
  let in2 := (m_lo <=? m2)%Z && (m2 <=? m_hi)%Z in
  let found :=
    if in1 && in2 then
      Some (if (d1 <? d2)%Z then m1
            else if (d2 <? d1)%Z then m2
            else if Z.even m1 then m1 else m2)
    else if in1 then Some m1
    else if in2 then Some m2
    else None in
  match found with
  | Some m => (m, j)
  | None =>
      match fuel with
      | O => (x, 0%Z)
      | S fuel' => shortest fuel' x (j - 1)
      end
  end.

(** The decimal digits of a natural number. *)
Definition digits_text (n : Z) : string := NilZero.string_of_uint (N.to_uint (Z.to_N n)).

Definition zeros (n : Z) : string := string_of_list_ascii (repeat "0"%char (Z.to_nat n)).

(** Steps 6 to 10 of [Number::toString] for a double [x] above 2^53: with
    [k] the number of digits of [s] and [n = k + j], the digits of [s] and
    [j] zeros when [n <= 21], and the exponent form otherwise. *)
Definition large_number_text (x : Z) : string :=
  let start := Z.of_nat (String.length (digits_text x)) in
  let '(s, j) := shortest (Z.to_nat start) x start in
  let k := Z.of_nat (String.length (digits_text s)) in
  let n := (k + j)%Z in
  if (n <=? 21)%Z then digits_text s +:+ zeros j
  else
    match digits_text s with
    | String c EmptyString => String c ("e+" +:+ digits_text (n - 1))
    | String c rest => String c ("." +:+ rest +:+ "e+" +:+ digits_text (n - 1))
    | EmptyString => EmptyString
    end.

(** [n.toString()] for an integer [n]. Below 2^53 every integer is a
    double of its own and is written with all its digits; above, the text
    is that of [Number::toString] for the double [to_double n]. *)
Definition Number_toString (n : Z) : string :=
  if (Z.abs n <? 2 ^ 53)%Z then NilZero.string_of_int (Z.to_int n)
  else (if (n <? 0)%Z then "-" else "") +:+ large_number_text (Z.abs (to_double n)).

Module JSON.

(** *** JSON.stringify(value) *)

Definition hex_digit (n : nat) : string :=
  String (nth n (list_ascii_of_string "0123456789abcdef") "0"%char) EmptyString.

Definition escape_char (c : ascii) : string :=
  let n := nat_of_ascii c in
  if (n =? 34)%nat then backslash +:+ dquote
  else if (n =? 92)%nat then backslash +:+ backslash
  else if (n =? 8)%nat then backslash +:+ "b"
  else if (n =? 9)%nat then backslash +:+ "t"
  else if (n =? 10)%nat then backslash +:+ "n"
  else if (n =? 12)%nat then backslash +:+ "f"
  else if (n =? 13)%nat then backslash +:+ "r"
  else if (n <? 32)%nat
       then backslash +:+ "u00" +:+ hex_digit (n / 16) +:+ hex_digit (n mod 16)
  else String c EmptyString.

Fixpoint escape (s : string) : string :=
  match s with
  | EmptyString => EmptyString
  | String c s' => escape_char c +:+ escape s'
  end.

Definition QuoteJSONString (s : string) : string := dquote +:+ escape s +:+ dquote.

(** [None] stands for the result [undefined]: such a property is left out
    of an object, and such an element is written [null] in an array. *)
Fixpoint SerializeJSONProperty (v : Value) : option string :=
  match v with
  | VUndefined => None
  | VNull => Some "null"
  | VBool true => Some "true"
  | VBool false => Some "false"
  | VNumber n => Some (Number_toString n)
  | VString s => Some (QuoteJSONString s)
  | VArray l =>
      let elements :=
        (fix go (l : list Value) : list string :=
           match l with
           | [] => []
           | x :: l' => default "null" (SerializeJSONProperty x) :: go l'
           end) l in
      Some ("[" +:+ String.concat "," elements +:+ "]")
  | VObject o =>
      let members :=
        (fix go (o : list (string * Value)) : list string :=
           match o with
           | [] => []
           | (k, x) :: o' =>
               match SerializeJSONProperty x with
               | Some s => (QuoteJSONString k +:+ ":" +:+ s) :: go o'
               | None => go o'
               end
           end) o in
      Some ("{" +:+ String.concat "," members +:+ "}")
  end.

Definition stringify (v : Value) : option string := SerializeJSONProperty v.

(** *** JSON.parse(text)

    A number literal gives the double nearest to its value. A literal
    whose value is not an integer, and a [\u] escape above 007f, are outside
    the model: the model refuses them, although the runtime parses them. *)

Definition is_ws (c : ascii) : bool :=
  let n := nat_of_ascii c in
  (n =? 32)%nat || (n =? 9)%nat || (n =? 10)%nat || (n =? 13)%nat.

Fixpoint skip_ws (s : string) : string :=
  match s with
  | String c s' => if is_ws c then skip_ws s' else s
  | EmptyString => s
  end.

Fixpoint strip_prefix (p s : string) : option string :=
  match p, s with
  | EmptyString, _ => Some s
  | String a p', String b s' => if Ascii.eqb a b then strip_prefix p' s' else None
  | String _ _, EmptyString => None
  end.

Fixpoint digits (s : string) (acc : Z) : Z * string :=
  match s with
  | String c s' =>
      if is_digit c then digits s' (10 * acc + (Z.of_nat (nat_of_ascii c) - 48))%Z
      else (acc, s)
  | EmptyString => (acc, s)
  end.

(** [s] starts at the first digit. *)
Definition natural (s : string) : option (Z * string) :=
  match s with
  | String c s' =>
      if Ascii.eqb c "0" then
        match s' with
        | String d _ => if is_digit d then None else Some (0%Z, s')
        | EmptyString => Some (0%Z, s')
        end
      else if is_digit c then Some (digits s 0%Z)
      else None
  | EmptyString => None
  end.

(** The digits after the point: they are appended to the digits read so
    far, and counted. *)
Fixpoint fraction_digits (s : string) (acc places : Z) : Z * Z * string :=
  match s with
  | String c s' =>
      if is_digit c
      then fraction_digits s' (10 * acc + (Z.of_nat (nat_of_ascii c) - 48))%Z (places + 1)%Z
      else (acc, places, s)
  | EmptyString => (acc, places, s)
  end.

(** The optional fraction: a point and at least one digit. *)
Definition fraction (n : Z) (s : string) : option (Z * Z * string) :=
  match s with
  | String c s' =>
      if Ascii.eqb c "." then
        match s' with
        | String d _ => if is_digit d then Some (fraction_digits s' n 0%Z) else None
        | EmptyString => None
        end
      else Some (n, 0%Z, s)
  | EmptyString => Some (n, 0%Z, s)
  end.

(** The optional exponent: [e] or [E], an optional sign and at least one
    digit. *)
Definition exponent (s : string) : option (Z * string) :=
  match s with
  | String c s' =>
      if Ascii.eqb c "e" || Ascii.eqb c "E" then
        let signed :=
          match s' with
          | String sign r =>
              if Ascii.eqb sign "-" then (true, r)
              else if Ascii.eqb sign "+" then (false, r)
              else (false, s')
          | EmptyString => (false, s')
          end in
        match snd signed with
        | String d _ =>
            if is_digit d
            then let '(e, r) := digits (snd signed) 0%Z in
                 Some (if fst signed then (- e)%Z else e, r)
            else None
        | EmptyString => None
        end
      else Some (0%Z, s)
  | EmptyString => Some (0%Z, s)
  end.

(** What follows the integer part [n] of a literal: the literal stands for
    [mantissa * 10^(e - places)], and is refused when that is no integer. *)
Definition number_tail (negative : bool) (n : Z) (s : string) : option (Value * string) :=
  match fraction n s with
  | Some (mantissa, places, r) =>
      match exponent r with
      | Some (e, r') =>
          let shift := (e - places)%Z in
          let magnitude :=
            if (0 <=? shift)%Z then Some (mantissa * 10 ^ shift)%Z
            else if (mantissa mod 10 ^ (- shift) =? 0)%Z
                 then Some (mantissa / 10 ^ (- shift))%Z
                 else None in
          match magnitude with
          | Some m => Some (VNumber (to_double (if negative then (- m)%Z else m)), r')
          | None => None
          end
      | None => None
      end
  | None => None
  end.

Definition number (s : string) : option (Value * string) :=
  match s with
  | String c s' =>
      if Ascii.eqb c "-"
      then match natural s' with Some (n, r) => number_tail true n r | None => None end
      else match natural s with Some (n, r) => number_tail false n r | None => None end
  | EmptyString => None
  end.

Definition hex_value (c : ascii) : option nat :=
  let n := nat_of_ascii c in
  if is_digit c then Some (n - 48)%nat
  else if (97 <=? n)%nat && (n <=? 102)%nat then Some (n - 87)%nat
  else if (65 <=? n)%nat && (n <=? 70)%nat then Some (n - 55)%nat
  else None.

Definition unicode_escape (h1 h2 h3 h4 : ascii) : option ascii :=
  match hex_value h1, hex_value h2, hex_value h3, hex_value h4 with
  | Some a, Some b, Some c, Some d =>
      let n := (((a * 16 + b) * 16 + c) * 16 + d)%nat in
      if (n <? 128)%nat then Some (ascii_of_nat n) else None
  | _, _, _, _ => None
  end.

Definition simple_escape (c : ascii) : option ascii :=
  let n := nat_of_ascii c in
  if (n =? 34)%nat then Some c
  else if (n =? 92)%nat then Some c
  else if (n =? 47)%nat then Some c
  else if Ascii.eqb c "b" then Some (ascii_of_nat 8)
  else if Ascii.eqb c "f" then Some (ascii_of_nat 12)
  else if Ascii.eqb c "n" then Some (ascii_of_nat 10)
  else if Ascii.eqb c "r" then Some (ascii_of_nat 13)
  else if Ascii.eqb c "t" then Some (ascii_of_nat 9)
  else None.

(** The characters of a string literal after its opening quote, up to and
    including the closing quote. *)
Fixpoint string_body (s : string) : option (string * string) :=
  match s with
  | EmptyString => None
  | String c s' =>
      let n := nat_of_ascii c in
      if (n =? 34)%nat then Some (EmptyString, s')
      else if (n =? 92)%nat then
        match s' with
        | String e s'' =>
            if Ascii.eqb e "u" then
              match s'' with
              | String h1 (String h2 (String h3 (String h4 s3))) =>
                  match unicode_escape h1 h2 h3 h4, string_body s3 with
                  | Some ch, Some (body, r) => Some (String ch body, r)
                  | _, _ => None
                  end
              | _ => None
              end
            else
              match simple_escape e, string_body s'' with
              | Some ch, Some (body, r) => Some (String ch body, r)
              | _, _ => None
              end
        | EmptyString => None
        end
      else if (n <? 32)%nat then None
      else match string_body s' with
           | Some (body, r) => Some (String c body, r)
           | None => None
           end
  end.

Definition string_literal (s : string) : option (string * string) :=
  match strip_prefix dquote s with
  | Some s' => string_body s'
  | None => None
  end.

Definition literal (s : string) : option (Value * string) :=
  match strip_prefix "null" s with
  | Some r => Some (VNull, r)
  | None =>
      match strip_prefix "true" s with
      | Some r => Some (VBool true, r)
      | None =>
          match strip_prefix "false" s with
          | Some r => Some (VBool false, r)
          | None => number s
          end
      end
  end.

(** One unit of fuel is spent per value, per array element and per object
    member; [parse] supplies more than the text has characters. *)
Fixpoint value (fuel : nat) (s : string) : option (Value * string) :=
  match fuel with
  | O => None
  | S fuel =>
      let s := skip_ws s in
      match strip_prefix "[" s with
      | Some r =>
          let r := skip_ws r in
          match strip_prefix "]" r with
          | Some r' => Some (VArray [], r')
          | None => elements fuel r []
          end
      | None =>
          match strip_prefix "{" s with
          | Some r =>
              let r := skip_ws r in
              match strip_prefix "}" r with
              | Some r' => Some (VObject [], r')
              | None => members fuel r []
              end
          | None =>
              match string_literal s with
              | Some (str, r) => Some (VString str, r)
              | None => literal s
              end
          end
      end
  end

with elements (fuel : nat) (s : string) (acc : list Value) : option (Value * string) :=
  match fuel with
  | O => None
  | S fuel =>
      match value fuel s with
      | Some (v, r) =>
          let r := skip_ws r in
          match strip_prefix "," r with
          | Some r' => elements fuel r' (acc ++ [v])
          | None =>
              match strip_prefix "]" r with
              | Some r' => Some (VArray (acc ++ [v]), r')
              | None => None
              end
          end
      | None => None
      end
  end

with members (fuel : nat) (s : string) (acc : JsObject Value) : option (Value * string) :=
  match fuel with
  | O => None
  | S fuel =>
      match string_literal (skip_ws s) with
      | Some (k, r) =>
          match strip_prefix ":" (skip_ws r) with
          | Some r' =>
              match value fuel r' with
              | Some (v, r'') =>
                  let r'' := skip_ws r'' in
                  match strip_prefix "," r'' with
                  | Some r3 => members fuel r3 (set_property acc k v)
                  | None =>
                      match strip_prefix "}" r'' with
                      | Some r3 => Some (VObject (set_property acc k v), r3)
                      | None => None
                      end
                  end
              | None => None
              end
          | None => None
          end
      | None => None
      end
  end.

Definition parse (text : string) : Completion Value :=
  match value (2 * String.length text + 2) text with
  | Some (v, r) =>
      match skip_ws r with
      | EmptyString => Ok v
      | String _ _ => Throw SyntaxError
      end
  | None => Throw SyntaxError
  end.

End JSON.

(** ** zod: the modelled fragment

    Schemas are trees: no schema instance is shared between two places.
    [ZodDescribed t d] is [t.describe(d)]: the same schema with its
    description set. *)

Inductive ZodType : Type :=
| ZodString
| ZodNumber
| ZodBoolean
| ZodUnknown
| ZodArray (element : ZodType)
| ZodObject (shape : list (string * ZodType))
| ZodDescribed (inner : ZodType) (description : string).

(** [t._def.typeName] *)
Fixpoint typeName (t : ZodType) : string :=
  match t with
  | ZodString => "ZodString"
  | ZodNumber => "ZodNumber"
  | ZodBoolean => "ZodBoolean"
  | ZodUnknown => "ZodUnknown"
  | ZodArray _ => "ZodArray"
  | ZodObject _ => "ZodObject"
  | ZodDescribed t' _ => typeName t'
  end.

(** [z.object(shape)] for an object literal [shape] given as its properties
    in source order. *)
Definition z_object (shape : list (string * ZodType)) : ZodType :=
  ZodObject (foldl (fun o p => set_property o (fst p) (snd p)) [] shape).

Inductive SafeParseReturn : Type :=
| success (data : Value)
| failure (error : list ZodIssue).

Definition merge_results {A : Type} (r : SafeParseReturn) (k : Value -> A)
    (rs : list A + list ZodIssue) : list A + list ZodIssue :=
  match r, rs with
  | success d, inl xs => inl (k d :: xs)
  | success _, inr issues => inr issues
  | failure e, inl _ => inr e
  | failure e, inr issues => inr (e ++ issues)
  end.

(** What [mergeObjectSync] does with the parsed pairs: a key is set when its
    value is defined or the key was present in the input. *)
Definition mergeObjectSync (pairs : list (string * Value * bool)) : JsObject Value :=
  foldl (fun final p =>
           match p with
           | (k, v, alwaysSet) =>
               if negb (String.eqb k "__proto__")
                  && (negb (String.eqb (getParsedType v) "undefined") || alwaysSet)
               then set_property final k v
               else final
           end) [] pairs.

(** [t._parse] at [path]. Objects are in zod's default mode: unrecognised
    keys are stripped. Every issue of every element and property is
    reported. *)
Fixpoint _parse (t : ZodType) (path : list PathSegment) (v : Value) : SafeParseReturn :=
  match t with
  | ZodString =>
      match v with
      | VString _ => success v
      | _ => failure [invalid_type "string" (getParsedType v) path]
      end
  | ZodNumber =>
      match v with
      | VNumber _ => success v
      | _ => failure [invalid_type "number" (getParsedType v) path]
      end
  | ZodBoolean =>
      match v with
      | VBool _ => success v
      | _ => failure [invalid_type "boolean" (getParsedType v) path]
      end
  | ZodUnknown => success v
  | ZodArray element =>
      match v with
      | VArray l =>
          let items :=
            (fix go (l : list Value) (i : nat) : list Value + list ZodIssue :=
               match l with
               | [] => inl []
               | x :: l' =>
                   merge_results (_parse element (path ++ [Index i]) x) id (go l' (S i))
               end) l 0%nat in
          match items with
          | inl ds => success (VArray ds)
          | inr issues => failure issues
          end
      | _ => failure [invalid_type "array" (getParsedType v) path]
      end
  | ZodObject shape =>
      match v with
      | VObject o =>
          let pairs :=
            (fix go (shape : list (string * ZodType))
               : list (string * Value * bool) + list ZodIssue :=
               match shape with
               | [] => inl []
               | (k, tk) :: shape' =>
                   merge_results
                     (_parse tk (path ++ [Key k]) (default VUndefined (own_property o k)))
                     (fun d => (k, d, has_own o k))
                     (go shape')
               end) shape in
          match pairs with
          | inl ps => success (VObject (mergeObjectSync ps))
          | inr issues => failure issues
          end
      | _ => failure [invalid_type "object" (getParsedType v) path]
      end
  | ZodDescribed t' _ => _parse t' path v
  end.

Definition safeParse (t : ZodType) (v : Value) : SafeParseReturn := _parse t [] v.

(** [t.isOptional()] *)
Definition isOptional (t : ZodType) : bool :=
  match safeParse t VUndefined with success _ => true | failure _ => false end.

(** [ZodTuple] with [items] and rest element [z.unknown()], applied to an
    argument list. An item left [undefined] falls back to the rest schema. *)
Definition tuple_item (items : list (option ZodType)) (i : nat) : ZodType :=
  match items !! i with
  | Some (Some t) => t
  | _ => ZodUnknown
  end.

Definition ZodTuple_safeParse (items : list (option ZodType)) (data : list Value)
    : list Value + list ZodIssue :=
  if (length data <? length items)%nat then inr [too_small (length items) []]
  else
    (fix go (l : list Value) (i : nat) : list Value + list ZodIssue :=
       match l with
       | [] => inl []
       | x :: l' => merge_results (_parse (tuple_item items i) [Index i] x) id (go l' (S i))
       end) data 0%nat.

(** *** Function schemas *)

Record ZodFunction : Type := {
  def_args : list (option ZodType);    (* _def.args.items; the rest element is z.unknown() *)
  def_returns : ZodType;               (* _def.returns *)
  def_description : option string      (* _def.description *)
}.

Definition parameters_items (f : ZodFunction) : list (option ZodType) := def_args f.
Definition returnType (f : ZodFunction) : ZodType := def_returns f.

(** [z.function()] *)
Definition z_function : ZodFunction :=
  {| def_args := []; def_returns := ZodUnknown; def_description := None |}.

(** [f.args(...items)] *)
Definition args (f : ZodFunction) (items : list (option ZodType)) : ZodFunction :=
  {| def_args := items; def_returns := def_returns f; def_description := def_description f |}.

(** [f.returns(t)] *)
Definition returns (f : ZodFunction) (t : ZodType) : ZodFunction :=
  {| def_args := def_args f; def_returns := t; def_description := def_description f |}.

(** [f.describe(d)] *)
Definition describe (f : ZodFunction) (d : string) : ZodFunction :=
  {| def_args := def_args f; def_returns := def_returns f; def_description := Some d |}.

(** What calling a JavaScript function gives: a value, an exception, or a
    promise with the completion it settles to. *)
Inductive Outcome : Type :=
| Returns (v : Value)
| Raises (e : Exn)
| ReturnsPromise (settled : Completion Value).

(** [await o] inside an async function. *)
Definition await (o : Outcome) : Completion Value :=
  match o with
  | Returns v => Ok v
  | Raises e => Throw e
  | ReturnsPromise c => c
  end.

(** A callable together with the trace of the arguments with which the
    user-supplied function behind it was entered. *)
Definition Callable : Type := list Value -> Outcome * list Value.

(** [z.union([zodType, z.promise(zodType)]).safeParse(result)] followed by
    what the caller sees: a value of the first member is parsed at once; a
    promise matches the second member and is parsed when it fulfils. *)
Definition parse_maybeAZodPromise (zodType : ZodType) (result : Outcome) : Outcome :=
  match result with
  | Returns v =>
      match safeParse zodType v with
      | success d => Returns d
      | failure issues =>
          Raises (ZodError [invalid_return_type
                    [invalid_union [issues; [invalid_type "promise" (getParsedType v) []]]]])
      end
  | Raises e => Raises e
  | ReturnsPromise c =>
      ReturnsPromise
        (v ← c;
         match safeParse zodType v with
         | success d => Ok d
         | failure issues => Throw (ZodError issues)
         end)
  end.

(** [schema.returns(maybeAZodPromise(returnType)).implement(func)]: the
    arguments are parsed against the parameter tuple, [func] is applied to
    the parsed arguments, and what it returns is parsed against the return
    schema. *)
Definition implement_maybeAZodPromise (schema : ZodFunction) (zodType : ZodType)
    (func : Callable) : Callable :=
  fun arguments =>
    match ZodTuple_safeParse (parameters_items schema) arguments with
    | inr issues => (Raises (ZodError [invalid_arguments issues]), [])
    | inl data =>
        let (result, trace) := func data in
        (parse_maybeAZodPromise zodType result, trace)
    end.

(** ** zod-to-json-schema *)

Definition addMeta (description : option string) (jsonSchema : JsObject Value)
    : JsObject Value :=
  match description with
  | Some d => if String.eqb d "" then jsonSchema
              else set_property jsonSchema "description" (VString d)
  | None => jsonSchema
  end.

(** [parseDef]; [outer] is the description set on the schema by an
    enclosing [describe], the outermost one winning. *)
Fixpoint parseDef_described (outer : option string) (t : ZodType) : JsObject Value :=
  match t with
  | ZodString => addMeta outer [("type", VString "string")]
  | ZodNumber => addMeta outer [("type", VString "number")]
  | ZodBoolean => addMeta outer [("type", VString "boolean")]
  | ZodUnknown => addMeta outer []
  | ZodArray element =>
      addMeta outer
        [("type", VString "array"); ("items", VObject (parseDef_described None element))]
  | ZodObject shape =>
      let acc :=
        (fix go (shape : list (string * ZodType)) (properties : JsObject Value)
             (required : list Value) : JsObject Value * list Value :=
           match shape with
           | [] => (properties, required)
           | (propName, propDef) :: shape' =>
               go shape'
                  (set_property properties propName (VObject (parseDef_described None propDef)))
                  (if isOptional propDef then required else required ++ [VString propName])
           end) shape [] [] in
      addMeta outer
        ([("type", VString "object"); ("properties", VObject (fst acc))]
           ++ match snd acc with
              | [] => []
              | _ :: _ => [("required", VArray (snd acc))]
              end
           ++ [("additionalProperties", VBool false)])
  | ZodDescribed t' d =>
      parseDef_described (match outer with Some _ => outer | None => Some d end) t'
  end.

Definition parseDef (t : ZodType) : JsObject Value := parseDef_described None t.

(** [zodToJsonSchema(schema)] with the default options. *)
Definition zodToJsonSchema (schema : ZodType) : JsObject Value :=
  set_property (parseDef schema) "$schema" (VString "http://json-schema.org/draft-07/schema#").

(** [zodToJsonSchema(x)] where [x] may be [undefined]: reading [x._def]
    raises. *)
Definition zodToJsonSchema_of (x : option ZodType) : Completion (JsObject Value) :=
  match x with
  | Some schema => Ok (zodToJsonSchema schema)
  | None => Throw (TypeError (ReadPropertyOfUndefined "_def"))
  end.

(** ** src/util.ts *)

Definition not_convertible_message : string :=
  "The provided Zod schema must be convertible to a JSON schema".

Definition trimGeneratedJsonSchema (schema : JsObject Value) : Completion (JsObject Value) :=
  let rest := rest_without ["$schema"; "definitions"] schema in
  _ ← invariant (has_own rest "type") not_convertible_message;
  Ok (if has_own rest "properties"
      then [("type", default VUndefined (own_property rest "type"));
            ("properties", default VUndefined (own_property rest "properties"));
            ("required", default VUndefined (own_property rest "required"));
            ("description", default VUndefined (own_property rest "description"))]
      else [("type", default VUndefined (own_property rest "type"));
            ("description", default VUndefined (own_property rest "description"))]).

(** ** src/ai.ts *)

Definition single_argument_message : string :=
  "The provided Zod function must have exactly one argument - for multiple inputs, use an input object".

Definition description_message : string :=
  "The provided Zod function must have a description - this is the implementation that gets passed to the LLM.".

Definition return_type_message : string :=
  "The provided Zod function must have a return type - this is the output shape passed to the LLM.".

(** [x.k] where [x] may be [undefined] or [null]. *)
Definition member (x : Value) (k : string) : Completion Value :=
  match x with
  | VUndefined | VNull => Throw (TypeError (ReadPropertyOfUndefined k))
  | _ => Ok (get_property x k)
  end.

Record FunctionContract : Type := {
  inputSchema : JsObject Value;
  outputSchema : JsObject Value;
  description : string;
  postProcessResult : Value -> Completion Value
}.

(** The locals [providedReturnTypeIsAnObject] and
    [returnTypeWrappedInObject] of [validateFunction]. *)
Definition providedReturnTypeIsAnObject (zodFnReturn : ZodType) : bool :=
  String.eqb (typeName zodFnReturn) "ZodObject".

Definition returnTypeWrappedInObject (zodFnReturn : ZodType) : ZodType :=
  if providedReturnTypeIsAnObject zodFnReturn then zodFnReturn
  else z_object [("result", zodFnReturn)].

Definition validateFunction (zodFunction : ZodFunction) : Completion FunctionContract :=
  let zodFnParameters := parameters_items zodFunction in
  let zodFnReturn := returnType zodFunction in
  let description := def_description zodFunction in
  let argumentItems := zodFnParameters in
  _ ← invariant (length argumentItems =? 1)%nat single_argument_message;
  _ ← invariant (bool_decide (description ≠ None)) description_message;
  _ ← invariant (negb (String.eqb (typeName zodFnReturn) "ZodUnknown")) return_type_message;
  let providedReturnTypeIsAnObject := providedReturnTypeIsAnObject zodFnReturn in
  let returnTypeWrappedInObject := returnTypeWrappedInObject zodFnReturn in
  inputSchema ← zodToJsonSchema_of (mjoin (argumentItems !! 0%nat))
                ≫= trimGeneratedJsonSchema;
  outputSchema ← trimGeneratedJsonSchema (zodToJsonSchema returnTypeWrappedInObject);
  Ok {| inputSchema := inputSchema;
        outputSchema := outputSchema;
        description := default "" description;
        postProcessResult := fun result =>
          match safeParse returnTypeWrappedInObject result with
          | failure error => Throw (ZodError error)
          | success data =>
              if providedReturnTypeIsAnObject then Ok data else member data "result"
          end |}.

(** ** src/tools.ts *)

Record Tool : Type := {
  zodFunctionSchema : ZodFunction;
  implementation : Callable
}.

Definition ToolRecord : Type := JsObject Tool.

Definition arity_message : string :=
  "The provided Zod function must have exactly zero arguments or one argument - for multiple inputs, use an input object".

(** [OpenAITypes.ChatCompletionTool]; [parameters] is [None] when the
    property holds [undefined]. *)
Record FunctionDefinition : Type := {
  fn_name : string;
  fn_description : string;
  fn_parameters : option (JsObject Value)
}.

Record ChatCompletionTool : Type := {
  tool_type : string;
  tool_function : FunctionDefinition
}.

(** A template literal's rendering of [JSON.stringify(x)]. *)
Definition template_string (x : option string) : string := default "undefined" x.

(** A non-empty string is truthy; [undefined] and the empty string are not. *)
Definition truthy (x : option string) : bool :=
  match x with
  | Some d => negb (String.eqb d "")
  | None => false
  end.

Definition formatTool (name : string) (fn : Tool) : Completion ChatCompletionTool :=
  let functionArguments := parameters_items (zodFunctionSchema fn) in
  _ ← invariant ((length functionArguments =? 1)%nat || (length functionArguments =? 0)%nat)
        arity_message;
  trimmedReturn ← trimGeneratedJsonSchema (zodToJsonSchema (returnType (zodFunctionSchema fn)));
  let descriptionAddendum :=
    "Responses will match the following JSONSchema definition: "
      +:+ template_string (JSON.stringify (VObject trimmedReturn)) in
  let description :=
    (if truthy (def_description (zodFunctionSchema fn))
     then default "" (def_description (zodFunctionSchema fn)) +:+ newline +:+ newline
     else "") +:+ descriptionAddendum in
  parameters ←
    (if (length functionArguments =? 1)%nat
        && bool_decide (mjoin (functionArguments !! 0%nat) ≠ None)
     then trimmed ← zodToJsonSchema_of (mjoin (functionArguments !! 0%nat))
                      ≫= trimGeneratedJsonSchema;
          Ok (Some trimmed)
     else Ok None);
  let openAiFunctionSpec :=
    {| fn_name := name; fn_description := description; fn_parameters := parameters |} in
  Ok {| tool_type := "function"; tool_function := openAiFunctionSpec |}.

(** [array.map(f)] for an [f] that may throw: the first exception ends it. *)
Fixpoint map_throwing {A B : Type} (f : A -> Completion B) (l : list A)
    : Completion (list B) :=
  match l with
  | [] => Ok []
  | x :: l' => y ← f x; ys ← map_throwing f l'; Ok (y :: ys)
  end.

Definition formatTools (tools : ToolRecord) : Completion (list ChatCompletionTool) :=
  let fnsWithNames := tools in
  map_throwing (fun p => formatTool (fst p) (snd p)) fnsWithNames.

(** [OpenAITypes.ChatCompletionMessageToolCall] *)
Record FunctionCall : Type := {
  name : string;
  arguments : string
}.

Record ChatCompletionMessageToolCall : Type := {
  id : string;
  function : FunctionCall
}.

(** [OpenAITypes.ChatCompletionToolMessageParam]; [content] is [None] when
    the property holds [undefined]. *)
Record ChatCompletionToolMessageParam : Type := {
  role : string;
  tool_call_id : string;
  msg_name : string;
  content : option string
}.

(** The keys every plain object inherits from [Object.prototype]. *)
Definition Object_prototype_keys : list string :=
  ["constructor"; "__defineGetter__"; "__defineSetter__"; "hasOwnProperty";
   "__lookupGetter__"; "__lookupSetter__"; "isPrototypeOf"; "propertyIsEnumerable";
   "toString"; "valueOf"; "__proto__"; "toLocaleString"].

(** [tools[name]] on a plain object: an own property, else a member of
    [Object.prototype], else [undefined]. *)
Inductive Lookup (A : Type) : Type :=
| Own (a : A)
| Inherited
| Undefined.
Arguments Own {A} a.
Arguments Inherited {A}.
Arguments Undefined {A}.

Definition lookup_property {A : Type} (o : JsObject A) (k : string) : Lookup A :=
  match own_property o k with
  | Some a => Own a
  | None => if existsb (String.eqb k) Object_prototype_keys then Inherited else Undefined
  end.

Definition callResultAsString (callResult : Value) : option string :=
  match callResult with
  | VString s => Some s
  | VNumber n => Some (Number_toString n)
  | _ => JSON.stringify callResult
  end.

(** The body of the async arrow function mapped over [toolCalls]: the
    completion of the promise it returns, and the trace of the entries into
    user-supplied functions it caused. *)
Definition handleToolCall (tools : ToolRecord) (call : ChatCompletionMessageToolCall)
    : Completion ChatCompletionToolMessageParam * list Value :=
  let name := name (function call) in
  let toolCallArguments := arguments (function call) in
  match lookup_property tools name with
  | Undefined =>
      (* tool is undefined: reading tool.implementation raises *)
      (Throw (TypeError (ReadPropertyOfUndefined "implementation")), [])
  | Inherited =>
      (* tool.implementation is undefined: the argument is evaluated, the call raises *)
      (_ ← JSON.parse toolCallArguments;
       Throw (TypeError (NotAFunction "tool.implementation")), [])
  | Own tool =>
      match JSON.parse toolCallArguments with
      | Throw e => (Throw e, [])
      | Ok argument =>
          let (result, trace) := implementation tool [argument] in
          (callResult ← await result;
           let callResultAsString := callResultAsString callResult in
           Ok {| role := "tool";
                 tool_call_id := id call;
                 msg_name := name;
                 content := callResultAsString |},
           trace)
      end
  end.

(** *** Promise.all

    The promises settle one after another in some order, given as the list
    of their indices. A fulfilment stores its value at the promise's own
    index; the first rejection rejects the whole; the whole fulfils, with the
    values in index order, once no value is missing. *)
Inductive PromiseState (A : Type) : Type :=
| Fulfilled (value : A)
| Rejected (reason : Exn)
| Pending.
Arguments Fulfilled {A} value.
Arguments Rejected {A} reason.
Arguments Pending {A}.

Fixpoint all_values {A : Type} (values : list (option A)) : option (list A) :=
  match values with
  | [] => Some []
  | Some v :: values' => vs ← all_values values'; Some (v :: vs)
  | None :: _ => None
  end.

Fixpoint settle_all {A : Type} (order : list nat) (promises : list (Completion A))
    (values : list (option A)) : PromiseState (list A) :=
  match all_values values with
  | Some vs => Fulfilled vs
  | None =>
      match order with
      | [] => Pending
      | i :: order' =>
          match promises !! i with
          | Some (Throw e) => Rejected e
          | Some (Ok v) => settle_all order' promises (<[i := Some v]> values)
          | None => settle_all order' promises values
          end
      end
  end.

Definition Promise_all {A : Type} (order : list nat) (promises : list (Completion A))
    : PromiseState (list A) :=
  settle_all order promises (replicate (length promises) None).

(** [handleToolCalls(tools, toolCalls)], the calls' promises settling in
    [order]: what the returned promise settles to, and the trace of the
    entries into user-supplied functions, in call order. *)
Definition handleToolCalls (tools : ToolRecord) (toolCalls : list ChatCompletionMessageToolCall)
    (order : list nat) : PromiseState (list ChatCompletionToolMessageParam) * list Value :=
  let started := map (handleToolCall tools) toolCalls in
  (Promise_all order (map fst started), concat (map snd started)).

(** The locals of [makeTool]. *)
Definition argumentType (zodFunctionSchema : ZodFunction) : option ZodType :=
  mjoin (parameters_items zodFunctionSchema !! 0%nat).

Definition shouldOverrideArgumentWithNestedInputKey (argumentType : option ZodType) : bool :=
  match argumentType with
  | Some t => negb (String.eqb (typeName t) "ZodObject")
  | None => false
  end.

Definition overriddenArgumentType (argumentType : option ZodType) : option ZodType :=
  if shouldOverrideArgumentWithNestedInputKey argumentType
  then t ← argumentType; Some (z_object [("input", t)])
  else argumentType.

Definition overriddenFunctionSchema (zodFunctionSchema : ZodFunction) : ZodFunction :=
  args zodFunctionSchema [overriddenArgumentType (argumentType zodFunctionSchema)].

(** The arrow function handed to [implement]; its trace records the entry
    into the user-supplied [implementation]. *)
Definition unwrap_and_call (zodFunctionSchema : ZodFunction)
    (implementation : Value -> Outcome) : Callable :=
  fun parsedArguments =>
    let rawFromOpenAi := default VUndefined (parsedArguments !! 0%nat) in
    match (if shouldOverrideArgumentWithNestedInputKey (argumentType zodFunctionSchema)
           then member rawFromOpenAi "input"
           else Ok rawFromOpenAi) with
    | Throw e => (Raises e, [])
    | Ok argToPassToImplementation =>
        (implementation argToPassToImplementation, [argToPassToImplementation])
    end.

Definition callableImplementation (zodFunctionSchema : ZodFunction)
    (implementation : Value -> Outcome) : Callable :=
  implement_maybeAZodPromise (overriddenFunctionSchema zodFunctionSchema)
    (returnType zodFunctionSchema)
    (unwrap_and_call zodFunctionSchema implementation).

Definition makeTool (zodFunctionSchema : ZodFunction) (implementation : Value -> Outcome)
    : Completion Tool :=
  _ ← invariant (length (parameters_items zodFunctionSchema) <=? 1)%nat arity_message;
  Ok {| zodFunctionSchema := overriddenFunctionSchema zodFunctionSchema;
        implementation := callableImplementation zodFunctionSchema implementation |}.

(** [message.tool_calls], [None] when the property is [undefined]. *)
Definition isToolCallRequested (tool_calls : option (list ChatCompletionMessageToolCall)) : bool :=
  match tool_calls with
  | Some calls => (0 <? length calls)%nat
  | None => false
  end.

(** ** src/ai.ts: makeAi

    The chat client is what the caller passes in: a function from the
    request to the completion of the promise [create] returns. *)

(** [JSON.stringify(value, null, gap)] for a non-empty [gap]; [indent] is the
    current indentation. *)
Fixpoint SerializeJSONProperty_indented (gap indent : string) (v : Value) : option string :=
  match v with
  | VUndefined => None
  | VNull => Some "null"
  | VBool true => Some "true"
  | VBool false => Some "false"
  | VNumber n => Some (Number_toString n)
  | VString s => Some (JSON.QuoteJSONString s)
  | VArray l =>
      let stepback := indent in
      let indent := indent +:+ gap in
      let partial :=
        (fix go (l : list Value) : list string :=
           match l with
           | [] => []
           | x :: l' =>
               default "null" (SerializeJSONProperty_indented gap indent x) :: go l'
           end) l in
      match partial with
      | [] => Some "[]"
      | _ :: _ =>
          Some ("[" +:+ newline +:+ indent
                +:+ String.concat ("," +:+ newline +:+ indent) partial
                +:+ newline +:+ stepback +:+ "]")
      end
  | VObject o =>
      let stepback := indent in
      let indent := indent +:+ gap in
      let partial :=
        (fix go (o : list (string * Value)) : list string :=
           match o with
           | [] => []
           | (k, x) :: o' =>
               match SerializeJSONProperty_indented gap indent x with
               | Some s => (JSON.QuoteJSONString k +:+ ": " +:+ s) :: go o'
               | None => go o'
               end
           end) o in
      match partial with
      | [] => Some "{}"
      | _ :: _ =>
          Some ("{" +:+ newline +:+ indent
                +:+ String.concat ("," +:+ newline +:+ indent) partial
                +:+ newline +:+ stepback +:+ "}")
      end
  end.

(** [JSON.stringify(value, null, 2)] *)
Definition JSON_stringify_null_2 (v : Value) : option string :=
  SerializeJSONProperty_indented "  " "" v.

Definition GenerateSystemPrompt : Type :=
  string -> JsObject Value -> JsObject Value -> string.

(** The request [client.chat.completions.create] receives. A message's
    content is [None] when [JSON.stringify] gave [undefined]. *)
Record ResponseFormat : Type := {
  format_type : string;
  format_schema : option (JsObject Value)
}.

Record ChatMessage : Type := {
  message_role : string;
  message_content : option string
}.

Record CompletionRequest : Type := {
  request_model : string;
  response_format : ResponseFormat;
  messages : list ChatMessage
}.

(** The reply: [choices[i].message.content], [None] when it is [null]. *)
Record ChatCompletion : Type := {
  choices : list (option string)
}.

Definition Client : Type := CompletionRequest -> Completion ChatCompletion.

Record AiFnOptions : Type := {
  client : Client;
  model : string;
  overrideSystemPrompt : option GenerateSystemPrompt;
  clientSupportsJsonSchema : option bool
}.

(** The template literal of [makeAi]. *)
Definition defaultSystemPrompt : GenerateSystemPrompt :=
  fun description inputSchema outputSchema =>
    newline
    +:+ "    Your job is to generate an output for a function. The function is described as:"
    +:+ newline
    +:+ "    " +:+ description +:+ newline
    +:+ newline
    +:+ "    The user will provide input that matches the following schema:" +:+ newline
    +:+ "    " +:+ template_string (JSON_stringify_null_2 (VObject inputSchema)) +:+ newline
    +:+ newline
    +:+ "    You MUST respond in a JSON format. Your response must match the following JSONSchema definition:"
    +:+ newline
    +:+ "    " +:+ template_string (JSON_stringify_null_2 (VObject outputSchema)) +:+ " "
    +:+ newline
    +:+ "  ".

Definition createSystemPrompt (options : AiFnOptions) : GenerateSystemPrompt :=
  default defaultSystemPrompt (overrideSystemPrompt options).

Definition responseFormat (options : AiFnOptions) (outputSchema : JsObject Value)
    : ResponseFormat :=
  if default false (clientSupportsJsonSchema options)
  then {| format_type := "json_object"; format_schema := Some outputSchema |}
  else {| format_type := "json_object"; format_schema := None |}.

(** What the wrapped function sends for [argument]. *)
Definition completion_request (options : AiFnOptions) (contract : FunctionContract)
    (argument : Value) : CompletionRequest :=
  {| request_model := model options;
     response_format := responseFormat options (outputSchema contract);
     messages :=
       [{| message_role := "system";
           message_content :=
             Some (createSystemPrompt options (description contract)
                     (inputSchema contract) (outputSchema contract)) |};
        {| message_role := "user";
           message_content := JSON.stringify argument |}] |}.

(** [makeAi(options)(zodFunction)]: the async function it returns gives the
    completion of its promise and the requests it sent to the client. *)
Definition makeAi (options : AiFnOptions) (zodFunction : ZodFunction)
    : Completion (Value -> Completion Value * list CompletionRequest) :=
  contract ← validateFunction zodFunction;
  Ok (fun argument =>
        let request := completion_request options contract argument in
        (aiResult ← client options request;
         jsonResponse ←
           match choices aiResult !! 0%nat with
           | Some content => Ok content
           | None => Throw (TypeError (ReadPropertyOfUndefined "message"))
           end;
         (* JSON.parse(null) reads the text "null" *)
         parsed ← JSON.parse (default "null" jsonResponse);
         postProcessResult contract parsed,
         [request])).

(** ** Examples from the test suites *)

Definition q (s : string) : string := dquote +:+ s +:+ dquote.

Definition getPalindrome_schema : ZodFunction :=
  describe (returns (args z_function [Some ZodString]) ZodString)
    "Returns the palindrome of the input string".

Fixpoint reverse_string (s : string) : string :=
  match s with
  | EmptyString => EmptyString
  | String c s' => reverse_string s' +:+ String c EmptyString
  end.

(** [(input) => input.split('').reverse().join('')] *)
Definition reverse_implementation (input : Value) : Outcome :=
  match input with
  | VString s => Returns (VString (reverse_string s))
  | VUndefined | VNull => Raises (TypeError (ReadPropertyOfUndefined "split"))
  | _ => Raises (TypeError (NotAFunction "input.split"))
  end.

(** ** Notions used in the statements *)

(** A schema with no object schema inside: parsing has no key to strip. *)
Fixpoint object_free (t : ZodType) : bool :=
  match t with
  | ZodString | ZodNumber | ZodBoolean | ZodUnknown => true
  | ZodArray element => object_free element
  | ZodObject _ => false
  | ZodDescribed t' _ => object_free t'
  end.

(** Two parse results that agree on success and on the data. *)
Definition same_outcome (r r' : SafeParseReturn) : Prop :=
  match r, r' with
  | success d, success d' => d = d'
  | failure _, failure _ => True
  | _, _ => False
  end.

Definition same_outcomes {A : Type} (r r' : list A + list ZodIssue) : Prop :=
  match r, r' with
  | inl xs, inl xs' => xs = xs'
  | inr _, inr _ => True
  | _, _ => False
  end.

(** The object [{ k: d }], or the empty object when [d] is [undefined] and
    the input had no key [k]. *)
Definition single_key_object (k : string) (d : Value) (present : bool) : Value :=
  VObject (if negb (String.eqb (getParsedType d) "undefined") || present
           then [(k, d)] else []).

(** The spec's error taxonomy (its section 7), read on the exceptions the
    code raises: a failed signature invariant is an [InvalidSignatureError],
    the failed invariant of [trimGeneratedJsonSchema] a [SchemaError], a
    [JSON.parse] failure a [MalformedResponseError], a zod validation error a
    [ResponseValidationError]. What the runtime raises on its own
    ([TypeError]) and what user code throws belong to no class; in
    particular no exception of the code stands for [UnknownToolError],
    since nothing checks that a tool name is registered. *)
Inductive SpecError : Type :=
| InvalidSignatureError
| SchemaError
| MalformedResponseError
| ResponseValidationError
| UnknownToolError.

Definition spec_error (e : Exn) : option SpecError :=
  match e with
  | InvariantFailed message =>
      if existsb (String.eqb message)
           [single_argument_message; description_message; return_type_message;
            arity_message]
      then Some InvalidSignatureError
      else if String.eqb message not_convertible_message then Some SchemaError
      else None
  | SyntaxError => Some MalformedResponseError
  | ZodError _ => Some ResponseValidationError
  | TypeError _ => None
  | Thrown _ => None
  end.















(** Whether an instance is valid against a JSON schema (draft-07), for the
    keywords the generated schemas use: [type], [properties], [required],
    [additionalProperties] and [items]. A keyword that is absent constrains
    nothing; [properties], [required] and [additionalProperties] constrain
    objects only, and [items] arrays only. *)
Definition json_type_matches (type : option Value) (instance : Value) : bool :=
  match type with
  | Some (VString t) =>
      String.eqb t (getParsedType instance)
      || (String.eqb t "integer" && String.eqb (getParsedType instance) "number")
  | _ => true
  end.

Definition required_present (required : option Value) (o : JsObject Value) : bool :=
  match required with
  | Some (VArray names) =>
      forallb (fun name => match name with VString k => has_own o k | _ => true end) names
  | _ => true
  end.

Fixpoint valid_against (schema : JsObject Value) (instance : Value) {struct instance} : bool :=
  json_type_matches (own_property schema "type") instance
  && match instance with
     | VArray elements =>
         match own_property schema "items" with
         | Some (VObject items) =>
             (fix all (l : list Value) : bool :=
                match l with
                | [] => true
                | x :: l' => valid_against items x && all l'
                end) elements
         | _ => true
         end
     | VObject o =>
         required_present (own_property schema "required") o
         && (fix all (members : JsObject Value) : bool :=
               match members with
               | [] => true
               | (k, x) :: members' =>
                   match get_property (default VUndefined (own_property schema "properties")) k with
                   | VObject property => valid_against property x
                   | _ =>
                       match own_property schema "additionalProperties" with
                       | Some (VBool false) => false
                       | Some (VObject additional) => valid_against additional x
                       | _ => true
                       end
                   end
                   && all members'
               end) o
     | _ => true
     end.

(** *** Signatures used as examples *)

(** [z.function().args(z.string()).returns(z.string()).describe("Sample description")],
    from the test suite of [validateFunction]. *)
Definition sample_fn : ZodFunction :=
  describe (returns (args z_function [Some ZodString]) ZodString) "Sample description".

(** A function returning [z.array(z.object({ a: z.number() }))]. *)
Definition listing_fn : ZodFunction :=
  describe
    (returns (args z_function [Some ZodString]) (ZodArray (z_object [("a", ZodNumber)])))
    "Sample description".

(** A function whose argument is [z.unknown()]. *)
Definition unknown_argument_fn : ZodFunction :=
  describe (returns (args z_function [Some ZodUnknown]) ZodString) "Sample description".

(** A function described by the empty string. *)
Definition empty_description_fn : ZodFunction :=
  describe (returns (args z_function [Some ZodString]) ZodString) "".

(** [z.function().returns(z.string())]: no argument, no description. *)
Definition bare_fn : ZodFunction := returns z_function ZodString.

(** *** Tools and calls used as examples *)

(** The tool [getPalindrome] of the test suite, registered as [reverse]. *)
Definition reverse_tool : Tool :=
  {| zodFunctionSchema := overriddenFunctionSchema getPalindrome_schema;
     implementation := callableImplementation getPalindrome_schema reverse_implementation |}.

Definition call_reverse (call_id text : string) : ChatCompletionMessageToolCall :=
  {| id := call_id;
     function := {| name := "reverse";
                    arguments := "{" +:+ q "input" +:+ ":" +:+ q text +:+ "}" |} |}.

(** [{ id: "2", function: { name: "reverse", arguments: '{"input":5}' } }] *)
Definition ill_typed_call : ChatCompletionMessageToolCall :=
  {| id := "2";
     function := {| name := "reverse"; arguments := "{" +:+ q "input" +:+ ":5}" |} |}.

(** [{ id: "1", function: { name: "nope", arguments: "{}" } }] *)
Definition unknown_call : ChatCompletionMessageToolCall :=
  {| id := "1"; function := {| name := "nope"; arguments := "{}" |} |}.

(** The zero-argument tool of the spec's scenario: described as
    "temperature lookup", returning
    [z.object({ temperature: z.number(), description: z.string() })]. *)
Definition weather_schema : ZodFunction :=
  describe
    (returns z_function
       (z_object [("temperature", ZodNumber); ("description", ZodString)]))
    "temperature lookup".

Definition weather_implementation (_ : Value) : Outcome :=
  Returns (VObject [("temperature", VNumber 72); ("description", VString "Sunny")]).

Definition weather_tool : Tool :=
  {| zodFunctionSchema := overriddenFunctionSchema weather_schema;
     implementation := callableImplementation weather_schema weather_implementation |}.

(** A tool declared without return type: [z.function().describe("ping")]. *)
Definition ping_schema : ZodFunction := describe z_function "ping".

Definition ping_tool : Tool :=
  {| zodFunctionSchema := overriddenFunctionSchema ping_schema;
     implementation := callableImplementation ping_schema (fun _ => Returns VUndefined) |}.

(** A tool counting the entries of a list of [{ a: number }] objects:
    [makeTool(z.function().args(z.array(z.object({ a: z.number() })))
    .returns(z.number()).describe("Counts the entries"), (l) => l.length)]. *)
Definition count_schema : ZodFunction :=
  describe
    (returns (args z_function [Some (ZodArray (z_object [("a", ZodNumber)]))]) ZodNumber)
    "Counts the entries".

Definition count_implementation (input : Value) : Outcome :=
  match input with
  | VArray l => Returns (VNumber (Z.of_nat (length l)))
  | VString s => Returns (VNumber (Z.of_nat (String.length s)))
  | VUndefined | VNull => Raises (TypeError (ReadPropertyOfUndefined "length"))
  | _ => Returns VUndefined
  end.

Definition count_tool : Tool :=
  {| zodFunctionSchema := overriddenFunctionSchema count_schema;
     implementation := callableImplementation count_schema count_implementation |}.

(** [{ id: "3", function: { name: "count", arguments: '{"input":[{"a":1,"b":2}]}' } }] *)
Definition count_call : ChatCompletionMessageToolCall :=
  {| id := "3";
     function :=
       {| name := "count";
          arguments :=
            "{" +:+ q "input" +:+ ":[{" +:+ q "a" +:+ ":1," +:+ q "b" +:+ ":2}]}" |} |}.





(** A tool that [formatTools] can format: at most one argument, and a JSON
    schema with a [type] key for the return type and for the argument, if
    there is one. *)
Definition formattable (fn : Tool) : bool :=
  (length (parameters_items (zodFunctionSchema fn)) <=? 1)%nat
  && has_own (zodToJsonSchema (returnType (zodFunctionSchema fn))) "type"
  && match argumentType (zodFunctionSchema fn) with
     | Some A => has_own (zodToJsonSchema A) "type"
     | None => true
     end.

(** A schema whose object shapes are those of JavaScript objects: no key
    twice, and no key [__proto__]. *)
Inductive WellFormed : ZodType -> Prop :=
| WellFormed_string : WellFormed ZodString
| WellFormed_number : WellFormed ZodNumber
| WellFormed_boolean : WellFormed ZodBoolean
| WellFormed_unknown : WellFormed ZodUnknown
| WellFormed_array element : WellFormed element -> WellFormed (ZodArray element)
| WellFormed_object shape :
    NoDup (keys shape) ->
    ~ In "__proto__" (keys shape) ->
    Forall (fun p => WellFormed (snd p)) shape ->
    WellFormed (ZodObject shape)
| WellFormed_described t d : WellFormed t -> WellFormed (ZodDescribed t d).

(** The loops of [_parse] over the elements of an array and over the shape
    of an object, on their own. *)
Definition parse_elements (parse_at : nat -> Value -> SafeParseReturn)
    : list Value -> nat -> list Value + list ZodIssue :=
  fix go (l : list Value) (i : nat) : list Value + list ZodIssue :=
    match l with
    | [] => inl []
    | x :: l' => merge_results (parse_at i x) Datatypes.id (go l' (S i))
    end.

Definition parse_shape (parse_key : string -> ZodType -> SafeParseReturn)
    (present : string -> bool)
    : list (string * ZodType) -> list (string * Value * bool) + list ZodIssue :=
  fix go (shape : list (string * ZodType))
    : list (string * Value * bool) + list ZodIssue :=
    match shape with
    | [] => inl []
    | (k, tk) :: shape' =>
        merge_results (parse_key k tk) (fun d => (k, d, present k)) (go shape')
    end.

(** Whether [mergeObjectSync] sets the key of a pair, and its step. *)
Definition is_set (p : string * Value * bool) : bool :=
  negb (String.eqb (fst (fst p)) "__proto__")
  && (negb (String.eqb (getParsedType (snd (fst p))) "undefined") || snd p).

Definition merge_step (final : JsObject Value) (p : string * Value * bool)
    : JsObject Value :=
  if is_set p then set_property final (fst (fst p)) (snd (fst p)) else final.

(** *** Options and replies used as examples *)

(** A function returning [z.array(z.string())], from the test "it should be
    able to return arrays". *)
Definition actors_fn : ZodFunction :=
  describe (returns (args z_function [Some ZodString]) (ZodArray ZodString))
    "Return a list of famous actors that match the user provided vibe".

(** A client that answers every request with one choice holding [text]. *)
Definition reply_with (text : string) : Client :=
  fun _ => Ok {| choices := [Some text] |}.

Definition options_with (c : Client) : AiFnOptions :=
  {| client := c;
     model := "gpt-3.5-turbo-1106";
     overrideSystemPrompt := None;
     clientSupportsJsonSchema := None |}.

(** The text [{"result":["a","b"]}]. *)
Definition actors_reply : string :=
  "{" +:+ q "result" +:+ ":[" +:+ q "a" +:+ "," +:+ q "b" +:+ "]}".

(** * Properties *)

(** ** Objects *)

Section ObjectFacts.
Context {A : Type}.
Implicit Types (o : JsObject A) (k : string) (v : A).

Lemma has_own_true o k : has_own o k = true ↔ ∃ v, own_property o k = Some v.
Proof.
  unfold has_own. destruct (own_property o k); split; eauto; try discriminate.
  intros [? ?]; discriminate.
Qed.

Lemma has_own_false o k : has_own o k = false ↔ own_property o k = None.
Proof. unfold has_own. destruct (own_property o k); split; congruence. Qed.

Lemma own_property_app o o' k :
  own_property (o ++ o') k =
    match own_property o k with Some v => Some v | None => own_property o' k end.
Proof.
  induction o as [|[k' v'] o IH]; simpl; [done|].
  destruct (String.eqb k' k); [done | apply IH].
Qed.

Lemma own_property_replace o k v k' :
  own_property (replace_property o k v) k' =
    if String.eqb k k' then (if has_own o k then Some v else None)
    else own_property o k'.
Proof.
  unfold has_own. induction o as [|[k0 v0] o IH]; simpl.
  - by destruct (String.eqb k k').
  - destruct (String.eqb k0 k) eqn:E0; simpl.
    + apply String.eqb_eq in E0 as ->. by destruct (String.eqb k k').
    + rewrite IH. destruct (String.eqb k k') eqn:E1; [|done].
      apply String.eqb_eq in E1 as <-. by rewrite E0.
Qed.

Lemma own_property_insert_index o n k v k' :
  own_property o k = None →
  own_property (insert_index o n k v) k' =
    if String.eqb k k' then Some v else own_property o k'.
Proof.
  induction o as [|[k0 v0] o IH]; simpl; intros Hk.
  - done.
  - destruct (String.eqb k0 k) eqn:E0; [discriminate|].
    assert (own_property ((k, v) :: (k0, v0) :: o) k' =
              if String.eqb k k' then Some v
              else if String.eqb k0 k' then Some v0 else own_property o k') as Hcons
      by done.
    destruct (array_index k0) as [m|]; [destruct (m <? n)%N|]; try exact Hcons.
    simpl. rewrite (IH Hk). destruct (String.eqb k k') eqn:E1; [|done].
    apply String.eqb_eq in E1 as <-. by rewrite E0.
Qed.

Lemma own_property_set_property o k v k' :
  own_property (set_property o k v) k' =
    if String.eqb k k' then Some v else own_property o k'.
Proof.
  unfold set_property. destruct (has_own o k) eqn:E.
  - rewrite own_property_replace, E. done.
  - apply has_own_false in E. destruct (array_index k).
    + by apply own_property_insert_index.
    + rewrite own_property_app. simpl.
      destruct (String.eqb k k') eqn:E1.
      * apply String.eqb_eq in E1 as <-. by rewrite E.
      * by destruct (own_property o k').
Qed.

Lemma own_property_rest_without excluded o k :
  existsb (String.eqb k) excluded = false →
  own_property (rest_without excluded o) k = own_property o k.
Proof.
  intros Hk. induction o as [|[k0 v0] o IH]; simpl; [done|].
  destruct (String.eqb k0 k) eqn:E0.
  - apply String.eqb_eq in E0 as ->. rewrite Hk. simpl. by rewrite String.eqb_refl.
  - destruct (negb _); simpl; [by rewrite E0|done].
Qed.

Lemma own_property_rest_without_excluded excluded o k :
  existsb (String.eqb k) excluded = true →
  own_property (rest_without excluded o) k = None.
Proof.
  intros Hk. induction o as [|[k0 v0] o IH]; simpl; [done|].
  destruct (existsb (String.eqb k0) excluded) eqn:E; simpl; [done|].
  destruct (String.eqb k0 k) eqn:E0; [|done].
  apply String.eqb_eq in E0 as ->. congruence.
Qed.
End ObjectFacts.

(** ** src/util.ts: trimGeneratedJsonSchema *)

Lemma has_own_rest_without (o : JsObject Value) (k : string) :
  existsb (String.eqb k) ["$schema"; "definitions"] = false →
  has_own (rest_without ["$schema"; "definitions"] o) k = has_own o k.
Proof. intros Hk. unfold has_own. by rewrite own_property_rest_without. Qed.

(** What [trimGeneratedJsonSchema] returns, in terms of its argument. *)
Lemma trimGeneratedJsonSchema_unfold (schema : JsObject Value) :
  trimGeneratedJsonSchema schema =
    if has_own schema "type"
    then Ok (if has_own schema "properties"
             then [("type", default VUndefined (own_property schema "type"));
                   ("properties", default VUndefined (own_property schema "properties"));
                   ("required", default VUndefined (own_property schema "required"));
                   ("description", default VUndefined (own_property schema "description"))]
             else [("type", default VUndefined (own_property schema "type"));
                   ("description", default VUndefined (own_property schema "description"))])
    else Throw (InvariantFailed not_convertible_message).
Proof.
  unfold trimGeneratedJsonSchema.
  rewrite !has_own_rest_without, !own_property_rest_without by reflexivity.
  by destruct (has_own schema "type").
Qed.

Lemma has_own_not_key (o : JsObject Value) (k : string) :
  k ∉ keys o → has_own o k = false.
Proof.
  intros Hk. apply has_own_false. induction o as [|[k' v] o IH]; [done|]. simpl.
  destruct (String.eqb k' k) eqn:E.
  - apply String.eqb_eq in E as ->. destruct Hk. simpl. left.
  - apply IH. intros Hin. apply Hk. simpl. by right.
Qed.

(** C8. A generated JSON-Schema document with a [type] key is trimmed to an
    object with exactly the keys [type], [properties], [required] and
    [description], in this order, when the document has [properties], and
    with exactly the keys [type] and [description] when it has none. Each
    of these keys holds what the document holds under it ([undefined] when
    it has none), so that [type] and [properties] are kept as they are;
    every other key, [$schema] and [definitions] among them, is gone. A
    document without a [type] key makes the invariant fail. The result is a
    function of what the document holds under these four keys: documents
    that agree on them are trimmed alike, whatever else they hold. *)
Theorem trimGeneratedJsonSchema_keeps_four_keys (schema : JsObject Value) :
  (has_own schema "type" = true →
     ∃ trimmed,
       trimGeneratedJsonSchema schema = Ok trimmed
       ∧ keys trimmed
         = (if has_own schema "properties"
            then ["type"; "properties"; "required"; "description"]
            else ["type"; "description"])
       ∧ (∀ k, k ∈ keys trimmed →
            own_property trimmed k = Some (default VUndefined (own_property schema k)))
       ∧ own_property trimmed "type" = own_property schema "type"
       ∧ (has_own schema "properties" = true →
            own_property trimmed "properties" = own_property schema "properties")
       ∧ (∀ k, k ∉ ["type"; "properties"; "required"; "description"] →
            has_own trimmed k = false)
       ∧ has_own trimmed "$schema" = false
       ∧ has_own trimmed "definitions" = false)
  ∧ (has_own schema "type" = false →
       trimGeneratedJsonSchema schema = Throw (InvariantFailed not_convertible_message))
  ∧ (∀ other,
       (∀ k, k ∈ ["type"; "properties"; "required"; "description"] →
             own_property other k = own_property schema k) →
       trimGeneratedJsonSchema other = trimGeneratedJsonSchema schema).
Proof.
  rewrite trimGeneratedJsonSchema_unfold. split_and!.
  - intros Htype. rewrite Htype. eexists; split; [done|].
    pose proof Htype as [v Hv]%has_own_true.
    destruct (has_own schema "properties") eqn:Hproperties; simpl.
    + pose proof Hproperties as [w Hw]%has_own_true.
      split_and!; try done.
      * intros k Hk. apply list_elem_of_In in Hk. simpl in Hk.
        destruct Hk as [<-|[<-|[<-|[<-|[]]]]]; done.
      * by rewrite Hv.
      * intros _. by rewrite Hw.
      * intros k Hk. by apply has_own_not_key.
    + split_and!; try done.
      * intros k Hk. apply list_elem_of_In in Hk. simpl in Hk.
        destruct Hk as [<-|[<-|[]]]; done.
      * by rewrite Hv.
      * intros k Hk. apply has_own_not_key. intros Hin. apply Hk.
        apply list_elem_of_In in Hin. apply list_elem_of_In. simpl in *. tauto.
  - by intros ->.
  - intros other Hagree. rewrite trimGeneratedJsonSchema_unfold.
    unfold has_own.
    rewrite !Hagree by (apply list_elem_of_In; simpl; tauto).
    done.
Qed.

Example trimGeneratedJsonSchema_object :
  trimGeneratedJsonSchema
    (zodToJsonSchema (z_object [("name", ZodDescribed ZodString "first name");
                                ("tags", ZodArray ZodString)]))
  = Ok [("type", VString "object");
        ("properties",
         VObject [("name", VObject [("type", VString "string");
                                    ("description", VString "first name")]);
                  ("tags", VObject [("type", VString "array");
                                    ("items", VObject [("type", VString "string")])])]);
        ("required", VArray [VString "name"; VString "tags"]);
        ("description", VUndefined)].
Proof. reflexivity. Qed.

Example trimGeneratedJsonSchema_definitions :
  trimGeneratedJsonSchema
    [("$schema", VString "http://json-schema.org/draft-07/schema#");
     ("definitions", VObject []);
     ("type", VString "string");
     ("description", VString "a name");
     ("minLength", VNumber 1)]
  = Ok [("type", VString "string"); ("description", VString "a name")].
Proof. reflexivity. Qed.

Example trimGeneratedJsonSchema_unknown :
  trimGeneratedJsonSchema (zodToJsonSchema ZodUnknown)
  = Throw (InvariantFailed not_convertible_message).
Proof. reflexivity. Qed.

(** ** zod: parsing *)

Lemma ZodType_nested_ind (P : ZodType → Prop) :
  P ZodString → P ZodNumber → P ZodBoolean → P ZodUnknown →
  (∀ element, P element → P (ZodArray element)) →
  (∀ shape, Forall (λ p, P p.2) shape → P (ZodObject shape)) →
  (∀ t d, P t → P (ZodDescribed t d)) →
  ∀ t, P t.
Proof.
  intros Hs Hn Hb Hu Ha Ho Hd. fix IH 1. intros [| | | |element|shape|t d].
  - exact Hs.
  - exact Hn.
  - exact Hb.
  - exact Hu.
  - apply Ha, IH.
  - apply Ho. induction shape as [|[k tk] shape IHshape]; constructor.
    + apply IH.
    + exact IHshape.
  - apply Hd, IH.
Qed.

Lemma merge_results_same {A : Type} r r' (k : Value → A) rs rs' :
  same_outcome r r' → same_outcomes rs rs' →
  same_outcomes (merge_results r k rs) (merge_results r' k rs').
Proof.
  destruct r, r', rs, rs'; simpl; try done. by intros -> ->.
Qed.

(** The path only labels the issues: success and data do not depend on it. *)
Lemma _parse_path_independent (t : ZodType) :
  ∀ path path' v, same_outcome (_parse t path v) (_parse t path' v).
Proof.
  induction t as [| | | |element IH|shape IH|t d IH] using ZodType_nested_ind;
    intros path path' v; simpl.
  - by destruct v.
  - by destruct v.
  - by destruct v.
  - done.
  - destruct v as [| | | | |l|]; try done.
    match goal with
    | |- same_outcome (match ?f l 0%nat with _ => _ end)
                      (match ?g l 0%nat with _ => _ end) =>
        assert (∀ i, same_outcomes (f l i) (g l i)) as Hitems;
        [|specialize (Hitems 0%nat); destruct (f l 0%nat), (g l 0%nat); simpl in *;
          by subst]
    end.
    induction l as [|x l IHl]; intros i; [done|].
    apply merge_results_same; [apply IH | apply IHl].
  - destruct v as [| | | | | |o]; try done.
    match goal with
    | |- same_outcome (match ?f shape with _ => _ end)
                      (match ?g shape with _ => _ end) =>
        assert (same_outcomes (f shape) (g shape)) as Hpairs;
        [|destruct (f shape), (g shape); simpl in *; by subst]
    end.
    induction IH as [|[k tk] shape Htk _ IHshape]; [done|].
    apply merge_results_same; [apply Htk | apply IHshape].
  - apply IH.
Qed.

Lemma _parse_success_any_path (t : ZodType) path path' v d :
  _parse t path v = success d → _parse t path' v = success d.
Proof.
  intros H. pose proof (_parse_path_independent t path path' v) as Hsame.
  rewrite H in Hsame. destruct (_parse t path' v); simpl in Hsame; by subst.
Qed.

Lemma _parse_failure_any_path (t : ZodType) path path' v issues :
  _parse t path v = failure issues → ∃ issues', _parse t path' v = failure issues'.
Proof.
  intros H. pose proof (_parse_path_independent t path path' v) as Hsame.
  rewrite H in Hsame. destruct (_parse t path' v); simpl in Hsame; [done|eauto].
Qed.

(** A schema without objects returns its input as the parsed data. *)
Lemma object_free_parse_id (t : ZodType) :
  object_free t = true → ∀ path v d, _parse t path v = success d → d = v.
Proof.
  induction t as [| | | |element IH|shape|t IH d']; simpl; intros Hfree path v d.
  - destruct v; by intros [= <-].
  - destruct v; by intros [= <-].
  - destruct v; by intros [= <-].
  - by intros [= <-].
  - destruct v as [| | | | |l|]; try done.
    match goal with
    | |- match ?f l 0%nat with _ => _ end = _ → _ =>
        assert (∀ i ds, f l i = inl ds → ds = l) as Hitems;
        [|destruct (f l 0%nat) as [ds|] eqn:E; [|done];
          intros [= <-]; by rewrite (Hitems _ _ E)]
    end.
    induction l as [|x l IHl]; intros i ds; [by intros [= <-]|].
    destruct (_parse element (path ++ [Index i]) x) as [dx|] eqn:Ex; simpl.
    + match goal with
      | |- match ?r with _ => _ end = _ → _ => destruct r as [ds'|] eqn:Er
      end; simpl; [|done].
      intros [= <-]. f_equal; [by eapply IH | by eapply IHl].
    + match goal with |- match ?r with _ => _ end = _ → _ => by destruct r end.
  - done.
  - by apply IH.
Qed.

(** *** Objects with a single key: [{ result: T }] and [{ input: T }] *)

Lemma z_object_single (k : string) (T : ZodType) : z_object [(k, T)] = ZodObject [(k, T)].
Proof.
  unfold z_object, set_property. simpl. by destruct (array_index k).
Qed.

Lemma _parse_single_key_object (k : string) (T : ZodType) path raw :
  String.eqb k "__proto__" = false →
  _parse (z_object [(k, T)]) path raw =
    match raw with
    | VObject o =>
        match _parse T (path ++ [Key k]) (default VUndefined (own_property o k)) with
        | success d => success (single_key_object k d (has_own o k))
        | failure issues => failure issues
        end
    | _ => failure [invalid_type "object" (getParsedType raw) path]
    end.
Proof.
  intros Hk. rewrite z_object_single. simpl. destruct raw; try done.
  destruct (_parse T _ _) as [d|]; simpl; [|done].
  unfold mergeObjectSync, single_key_object. simpl. rewrite Hk. simpl.
  destruct (_ || _); [|done].
  unfold set_property. simpl. by destruct (array_index k).
Qed.

Lemma member_single_key_object (k : string) (d : Value) (present : bool) :
  member (single_key_object k d present) k = Ok d.
Proof.
  unfold single_key_object, member. simpl.
  destruct (_ || _) eqn:E; simpl.
  - by rewrite String.eqb_refl.
  - apply orb_false_iff in E as [E _]. by destruct d.
Qed.

(** ** src/ai.ts: validateFunction *)

Lemma validateFunction_Ok (zodFunction : ZodFunction) (contract : FunctionContract) :
  validateFunction zodFunction = Ok contract →
  length (parameters_items zodFunction) = 1%nat
  ∧ def_description zodFunction = Some (description contract)
  ∧ typeName (returnType zodFunction) ≠ "ZodUnknown"
  ∧ zodToJsonSchema_of (mjoin (parameters_items zodFunction !! 0%nat))
      ≫= trimGeneratedJsonSchema = Ok (inputSchema contract)
  ∧ trimGeneratedJsonSchema
      (zodToJsonSchema (returnTypeWrappedInObject (returnType zodFunction)))
    = Ok (outputSchema contract)
  ∧ postProcessResult contract =
      (λ result,
         match safeParse (returnTypeWrappedInObject (returnType zodFunction)) result with
         | failure error => Throw (ZodError error)
         | success data =>
             if String.eqb (typeName (returnType zodFunction)) "ZodObject"
             then Ok data else member data "result"
         end).
Proof.
  unfold validateFunction, invariant, returnTypeWrappedInObject,
    providedReturnTypeIsAnObject.
  destruct (length (parameters_items zodFunction) =? 1)%nat eqn:Hlen; [|done].
  destruct (def_description zodFunction) as [d|]; [|done].
  destruct (String.eqb (typeName (returnType zodFunction)) "ZodUnknown") eqn:Hret; [done|].
  simpl.
  destruct (zodToJsonSchema_of _ ≫= trimGeneratedJsonSchema) as [inS|]; [|done].
  simpl.
  destruct (trimGeneratedJsonSchema _) as [outS|]; [|done].
  intros [= <-]. simpl. split_and!; try done.
  - by apply Nat.eqb_eq.
  - by apply String.eqb_neq.
Qed.

(** C1, as amended. For a signature that [validateFunction] accepts and
    whose return type [T] is not an object type, [outputSchema] is the
    trimmed schema of [{ result: T }], and [postProcessResult] applied to
    [{ result: v }], for [v] valid under [T], returns the data zod parsed
    from [v]: [v] itself when [T] has no object type inside, [v] without the
    keys zod strips otherwise. When [T] is an object type, [outputSchema] is
    the trimmed schema of [T] itself and [postProcessResult] returns the
    validated data unchanged. *)
Theorem validateFunction_wraps_and_unwraps
    (zodFunction : ZodFunction) (contract : FunctionContract) :
  validateFunction zodFunction = Ok contract →
  (typeName (returnType zodFunction) ≠ "ZodObject" →
     trimGeneratedJsonSchema
       (zodToJsonSchema (z_object [("result", returnType zodFunction)]))
     = Ok (outputSchema contract)
     ∧ (∀ v parsed,
          safeParse (returnType zodFunction) v = success parsed →
          postProcessResult contract (VObject [("result", v)]) = Ok parsed)
     ∧ (object_free (returnType zodFunction) = true →
        ∀ v parsed,
          safeParse (returnType zodFunction) v = success parsed →
          postProcessResult contract (VObject [("result", v)]) = Ok v))
  ∧ (typeName (returnType zodFunction) = "ZodObject" →
     trimGeneratedJsonSchema (zodToJsonSchema (returnType zodFunction))
     = Ok (outputSchema contract)
     ∧ (∀ raw data,
          safeParse (returnType zodFunction) raw = success data →
          postProcessResult contract raw = Ok data)).
Proof.
  intros (_ & _ & _ & _ & Hout & Hpost)%validateFunction_Ok.
  unfold returnTypeWrappedInObject, providedReturnTypeIsAnObject in *.
  rewrite Hpost. clear Hpost.
  split; intros Hname.
  - apply String.eqb_neq in Hname. rewrite Hname in *.
    assert (∀ v parsed,
              safeParse (returnType zodFunction) v = success parsed →
              match safeParse (z_object [("result", returnType zodFunction)])
                      (VObject [("result", v)]) with
              | failure error => Throw (ZodError error)
              | success data => member data "result"
              end = Ok parsed) as Hunwrap.
    { intros v parsed Hv. unfold safeParse.
      rewrite _parse_single_key_object by done. simpl.
      rewrite (_parse_success_any_path _ _ _ _ _ Hv).
      apply member_single_key_object. }
    split_and!; [done|done|].
    intros Hfree v parsed Hv.
    rewrite (Hunwrap _ _ Hv). f_equal.
    by eapply object_free_parse_id.
  - apply String.eqb_eq in Hname. rewrite Hname in *.
    split; [done|]. by intros raw data ->.
Qed.

(** The test "it should transform a primitive return type into an object
    with a result key". *)
Example validateFunction_sample_fn :
  outputSchema <$> (match validateFunction sample_fn with
                    | Ok contract => Some contract
                    | Throw _ => None
                    end)
  = Some [("type", VString "object");
          ("properties", VObject [("result", VObject [("type", VString "string")])]);
          ("required", VArray [VString "result"]);
          ("description", VUndefined)].
Proof. reflexivity. Qed.

Lemma validateFunction_wraps_and_unwraps_witness :
  ∃ contract,
    validateFunction sample_fn = Ok contract
    ∧ trimGeneratedJsonSchema (zodToJsonSchema (z_object [("result", ZodString)]))
      = Ok (outputSchema contract)
    ∧ postProcessResult contract (VObject [("result", VString "Se7en")])
      = Ok (VString "Se7en").
Proof.
  eexists. split; [reflexivity|].
  destruct (validateFunction_wraps_and_unwraps sample_fn _ eq_refl) as [Hwrapped _].
  destruct Hwrapped as (Hschema & Hpost & _); [done|].
  split; [exact Hschema|].
  apply Hpost. reflexivity.
Defined.

(** C1, as stated, fails: under [z.array(z.object({ a: z.number() }))] the
    value [[{ a: 1, b: 2 }]] is valid, and [postProcessResult] applied to
    [{ result: [{ a: 1, b: 2 }] }] returns [[{ a: 1 }]]. *)
Lemma postProcessResult_strips_unrecognised_keys :
  ∃ contract,
    validateFunction listing_fn = Ok contract
    ∧ typeName (returnType listing_fn) = "ZodArray"
    ∧ safeParse (returnType listing_fn)
        (VArray [VObject [("a", VNumber 1); ("b", VNumber 2)]])
      = success (VArray [VObject [("a", VNumber 1)]])
    ∧ postProcessResult contract
        (VObject [("result", VArray [VObject [("a", VNumber 1); ("b", VNumber 2)]])])
      = Ok (VArray [VObject [("a", VNumber 1)]])
    ∧ VArray [VObject [("a", VNumber 1)]]
      ≠ VArray [VObject [("a", VNumber 1); ("b", VNumber 2)]].
Proof.
  eexists. split; [reflexivity|]. split_and!; try reflexivity. discriminate.
Qed.

(** ** zod-to-json-schema: which schemas have a [type] *)

Lemma own_property_addMeta (outer : option string) (o : JsObject Value) (k : string) :
  String.eqb "description" k = false →
  own_property (addMeta outer o) k = own_property o k.
Proof.
  intros Hk. unfold addMeta. destruct outer as [d|]; [|done].
  destruct (String.eqb d ""); [done|].
  by rewrite own_property_set_property, Hk.
Qed.

Lemma parseDef_described_has_type (t : ZodType) :
  ∀ outer,
    has_own (parseDef_described outer t) "type"
    = negb (String.eqb (typeName t) "ZodUnknown").
Proof.
  induction t as [| | | |element _|shape|t IH d]; intros outer; simpl;
    try (unfold has_own; by rewrite own_property_addMeta).
  apply IH.
Qed.

Lemma zodToJsonSchema_has_type (t : ZodType) :
  has_own (zodToJsonSchema t) "type" = negb (String.eqb (typeName t) "ZodUnknown").
Proof.
  unfold zodToJsonSchema, parseDef. rewrite <- (parseDef_described_has_type t None).
  unfold has_own. by rewrite own_property_set_property.
Qed.

Lemma typeName_returnTypeWrappedInObject (t : ZodType) :
  typeName (returnTypeWrappedInObject t) = "ZodObject".
Proof.
  unfold returnTypeWrappedInObject, providedReturnTypeIsAnObject.
  destruct (String.eqb (typeName t) "ZodObject") eqn:E.
  - by apply String.eqb_eq.
  - by rewrite z_object_single.
Qed.

Lemma trimGeneratedJsonSchema_zodToJsonSchema (t : ZodType) :
  has_own (zodToJsonSchema t) "type" = true →
  ∃ trimmed, trimGeneratedJsonSchema (zodToJsonSchema t) = Ok trimmed.
Proof. intros H. rewrite trimGeneratedJsonSchema_unfold, H. eauto. Qed.

(** ** src/ai.ts: the invariants of validateFunction *)

Lemma validateFunction_wrong_arity (zodFunction : ZodFunction) :
  length (parameters_items zodFunction) ≠ 1%nat →
  validateFunction zodFunction = Throw (InvariantFailed single_argument_message).
Proof.
  intros Hlen%Nat.eqb_neq. unfold validateFunction, invariant. by rewrite Hlen.
Qed.

Lemma validateFunction_no_description (zodFunction : ZodFunction) :
  length (parameters_items zodFunction) = 1%nat →
  def_description zodFunction = None →
  validateFunction zodFunction = Throw (InvariantFailed description_message).
Proof.
  intros Hlen%Nat.eqb_eq Hdesc. unfold validateFunction, invariant.
  by rewrite Hlen, Hdesc.
Qed.

Lemma validateFunction_unknown_return (zodFunction : ZodFunction) (d : string) :
  length (parameters_items zodFunction) = 1%nat →
  def_description zodFunction = Some d →
  typeName (returnType zodFunction) = "ZodUnknown" →
  validateFunction zodFunction = Throw (InvariantFailed return_type_message).
Proof.
  intros Hlen%Nat.eqb_eq Hdesc Hret%String.eqb_eq. unfold validateFunction, invariant.
  by rewrite Hlen, Hdesc, Hret.
Qed.

Lemma validateFunction_one_argument (zodFunction : ZodFunction) (A : ZodType) (d : string) :
  parameters_items zodFunction = [Some A] →
  def_description zodFunction = Some d →
  typeName (returnType zodFunction) ≠ "ZodUnknown" →
  if has_own (zodToJsonSchema A) "type"
  then ∃ contract, validateFunction zodFunction = Ok contract
  else validateFunction zodFunction = Throw (InvariantFailed not_convertible_message).
Proof.
  intros Hitems Hdesc Hret%String.eqb_neq. unfold validateFunction, invariant.
  rewrite Hitems, Hdesc, Hret. simpl.
  rewrite (trimGeneratedJsonSchema_unfold (zodToJsonSchema A)).
  destruct (has_own (zodToJsonSchema A) "type"); [|done]. simpl.
  destruct (trimGeneratedJsonSchema_zodToJsonSchema
              (returnTypeWrappedInObject (returnType zodFunction))) as [trimmed Htrim].
  { by rewrite zodToJsonSchema_has_type, typeName_returnTypeWrappedInObject. }
  rewrite Htrim. simpl. eauto.
Qed.

(** C6, as amended. [validateFunction] fails with a signature invariant
    whenever the argument list does not have exactly one element or the
    return type is [ZodUnknown]. A signature with exactly one argument, a
    known return type and a description is compiled to a contract when the
    JSON schema generated for the argument has a [type] key; when it has
    none, the invariant of [trimGeneratedJsonSchema] fails instead. *)
Theorem validateFunction_signature_invariants (zodFunction : ZodFunction) :
  (length (parameters_items zodFunction) ≠ 1%nat
   ∨ typeName (returnType zodFunction) = "ZodUnknown" →
     ∃ message,
       validateFunction zodFunction = Throw (InvariantFailed message)
       ∧ message ∈ [single_argument_message; description_message; return_type_message]
       ∧ spec_error (InvariantFailed message) = Some InvalidSignatureError)
  ∧ (∀ A d,
       parameters_items zodFunction = [Some A] →
       typeName (returnType zodFunction) ≠ "ZodUnknown" →
       def_description zodFunction = Some d →
       (has_own (zodToJsonSchema A) "type" = true →
          ∃ contract, validateFunction zodFunction = Ok contract)
       ∧ (has_own (zodToJsonSchema A) "type" = false →
            validateFunction zodFunction
            = Throw (InvariantFailed not_convertible_message)
            ∧ spec_error (InvariantFailed not_convertible_message) = Some SchemaError)).
Proof.
  split.
  - intros Hbad.
    destruct (decide (length (parameters_items zodFunction) = 1%nat)) as [Hlen|Hlen].
    + destruct Hbad as [?|Hret]; [done|].
      destruct (def_description zodFunction) as [d|] eqn:Hdesc.
      * exists return_type_message. split; [by eapply validateFunction_unknown_return|].
        split; [|done]. apply list_elem_of_In. simpl. tauto.
      * exists description_message. split; [by apply validateFunction_no_description|].
        split; [|done]. apply list_elem_of_In. simpl. tauto.
    + exists single_argument_message. split; [by apply validateFunction_wrong_arity|].
      split; [|done]. apply list_elem_of_In. simpl. tauto.
  - intros A d Hitems Hret Hdesc.
    pose proof (validateFunction_one_argument _ _ _ Hitems Hdesc Hret) as H.
    split; intros Htype; rewrite Htype in H; done.
Qed.

(** C6, as stated, fails: a signature with exactly one argument
    ([z.unknown()]), the return type [z.string()] and a description is
    rejected. *)
Lemma validateFunction_rejects_unknown_argument :
  length (parameters_items unknown_argument_fn) = 1%nat
  ∧ typeName (returnType unknown_argument_fn) = "ZodString"
  ∧ def_description unknown_argument_fn = Some "Sample description"
  ∧ validateFunction unknown_argument_fn = Throw (InvariantFailed not_convertible_message).
Proof. split_and!; reflexivity. Qed.

(** C7, as amended. With exactly one argument and no description (the
    property is [undefined]), [validateFunction] fails with the invariant
    that asks for a description; with another number of arguments the
    invariant on the arguments fails first. A contract is returned only for
    a signature that has a description, the empty string included, and the
    contract carries that description. *)
Theorem validateFunction_description_invariant (zodFunction : ZodFunction) :
  (length (parameters_items zodFunction) = 1%nat →
   def_description zodFunction = None →
     validateFunction zodFunction = Throw (InvariantFailed description_message)
     ∧ spec_error (InvariantFailed description_message) = Some InvalidSignatureError)
  ∧ (length (parameters_items zodFunction) ≠ 1%nat →
       validateFunction zodFunction = Throw (InvariantFailed single_argument_message))
  ∧ (∀ contract,
       validateFunction zodFunction = Ok contract →
       def_description zodFunction = Some (description contract)).
Proof.
  split_and!.
  - intros Hlen Hdesc. split; [by apply validateFunction_no_description|done].
  - apply validateFunction_wrong_arity.
  - by intros contract (_ & Hdesc & _)%validateFunction_Ok.
Qed.

(** C7, as stated, fails twice: a signature described by the empty string
    is compiled, and a signature without description and without argument
    fails with the invariant on the arguments, not with the one on the
    description. *)
Lemma validateFunction_accepts_empty_description :
  (∃ contract,
     validateFunction empty_description_fn = Ok contract ∧ description contract = "")
  ∧ def_description empty_description_fn = Some ""
  ∧ def_description bare_fn = None
  ∧ validateFunction bare_fn = Throw (InvariantFailed single_argument_message)
  ∧ single_argument_message ≠ description_message.
Proof.
  split_and!; try reflexivity; [|discriminate].
  eexists. split; reflexivity.
Qed.

(** ** src/tools.ts: makeTool *)

Lemma makeTool_Ok (schema : ZodFunction) (impl : Value → Outcome) (tool : Tool) :
  makeTool schema impl = Ok tool →
  (length (parameters_items schema) ≤ 1)%nat
  ∧ tool = {| zodFunctionSchema := overriddenFunctionSchema schema;
              implementation := callableImplementation schema impl |}.
Proof.
  unfold makeTool, invariant.
  destruct (length (parameters_items schema) <=? 1)%nat eqn:Hlen; [|done].
  simpl. intros [= <-]. split; [by apply Nat.leb_le|done].
Qed.

Lemma makeTool_at_most_one_argument (schema : ZodFunction) (impl : Value → Outcome) :
  (length (parameters_items schema) ≤ 1)%nat →
  makeTool schema impl
  = Ok {| zodFunctionSchema := overriddenFunctionSchema schema;
          implementation := callableImplementation schema impl |}.
Proof.
  intros Hlen%Nat.leb_le. unfold makeTool, invariant. by rewrite Hlen.
Qed.

Lemma ZodTuple_safeParse_single (item : option ZodType) (raw : Value) :
  ZodTuple_safeParse [item] [raw] =
    match _parse (default ZodUnknown item) [Index 0] raw with
    | success d => inl [d]
    | failure issues => inr issues
    end.
Proof.
  unfold ZodTuple_safeParse, tuple_item. simpl.
  destruct item as [t|]; simpl; [by destruct (_parse t _ _)|done].
Qed.

(** The stored callable on one argument: parse it, then enter the arrow
    function, then parse what came back. *)
Lemma callableImplementation_single (zodFunctionSchema : ZodFunction)
    (implementation : Value → Outcome) (raw : Value) :
  callableImplementation zodFunctionSchema implementation [raw] =
    match _parse (default ZodUnknown
                    (overriddenArgumentType (argumentType zodFunctionSchema)))
            [Index 0] raw with
    | failure issues => (Raises (ZodError [invalid_arguments issues]), [])
    | success data =>
        let (result, trace) := unwrap_and_call zodFunctionSchema implementation [data] in
        (parse_maybeAZodPromise (returnType zodFunctionSchema) result, trace)
    end.
Proof.
  unfold callableImplementation, implement_maybeAZodPromise, overriddenFunctionSchema.
  simpl. rewrite ZodTuple_safeParse_single. by destruct (_parse _ _ _).
Qed.

(** A non-object argument type [T]: the stored argument is [{ input: T }]
    and the user-supplied function is entered with the parsed [input]. *)
Lemma callableImplementation_wrapped (zodFunctionSchema : ZodFunction)
    (implementation : Value → Outcome) (T : ZodType) (raw : Value) :
  argumentType zodFunctionSchema = Some T →
  typeName T ≠ "ZodObject" →
  match safeParse (z_object [("input", T)]) raw with
  | failure _ =>
      ∃ issues,
        callableImplementation zodFunctionSchema implementation [raw]
        = (Raises (ZodError [invalid_arguments issues]), [])
  | success _ =>
      ∃ argument,
        safeParse T (get_property raw "input") = success argument
        ∧ callableImplementation zodFunctionSchema implementation [raw]
          = (parse_maybeAZodPromise (returnType zodFunctionSchema)
               (implementation argument), [argument])
  end.
Proof.
  intros Harg Hname%String.eqb_neq.
  rewrite callableImplementation_single.
  unfold overriddenArgumentType, unwrap_and_call, shouldOverrideArgumentWithNestedInputKey.
  rewrite Harg, Hname.
  change (default ZodUnknown _) with (z_object [("input", T)]).
  unfold safeParse. rewrite !_parse_single_key_object by done.
  destruct raw as [| | | | | |o]; try (eexists; reflexivity).
  change (get_property (VObject o) "input")
    with (default VUndefined (own_property o "input")).
  pose proof (_parse_path_independent T ([Index 0] ++ [Key "input"]) ([] ++ [Key "input"])
                (default VUndefined (own_property o "input"))) as Hsame.
  pose proof (_parse_path_independent T [] ([] ++ [Key "input"])
                (default VUndefined (own_property o "input"))) as Hsame'.
  destruct (_parse T ([Index 0] ++ _) _) as [d|];
    destruct (_parse T ([] ++ _) _) as [d'|]; try done; [|eauto].
  destruct (_parse T [] _) as [d''|]; [|done].
  simpl in Hsame, Hsame'. subst d' d''.
  exists d. split; [done|].
  change (default VUndefined ([?x] !! 0%nat)) with x.
  by rewrite member_single_key_object.
Qed.

(** An object argument type, or no argument: nothing is wrapped and the
    user-supplied function is entered with the parsed argument. *)
Lemma callableImplementation_unwrapped (zodFunctionSchema : ZodFunction)
    (implementation : Value → Outcome) (raw : Value) :
  shouldOverrideArgumentWithNestedInputKey (argumentType zodFunctionSchema) = false →
  callableImplementation zodFunctionSchema implementation [raw] =
    match _parse (default ZodUnknown (argumentType zodFunctionSchema)) [Index 0] raw with
    | failure issues => (Raises (ZodError [invalid_arguments issues]), [])
    | success data =>
        (parse_maybeAZodPromise (returnType zodFunctionSchema) (implementation data),
         [data])
    end.
Proof.
  intros Hshould. rewrite callableImplementation_single.
  unfold overriddenArgumentType, unwrap_and_call. rewrite Hshould.
  by destruct (_parse _ _ _).
Qed.

(** ** The runtime: reading back what [JSON.stringify] wrote *)







(** *** Numbers *)









(** *** Strings *)




(** *** Values *)










































(** ** Promise.all *)

Lemma all_values_Some {A : Type} (values : list (option A)) (vs : list A) :
  all_values values = Some vs ↔ values = Some <$> vs.
Proof.
  revert vs. induction values as [|[v|] values IH]; intros vs; simpl.
  - split; [by intros [= <-]|]. by destruct vs.
  - destruct (all_values values) as [vs'|] eqn:E; simpl.
    + split.
      * intros [= <-]. simpl. f_equal. by apply IH.
      * destruct vs as [|v' vs]; [done|]. intros [= -> Hvs]. apply IH in Hvs.
        congruence.
    + split; [done|]. destruct vs as [|v' vs]; [done|]. intros [= -> Hvs].
      apply IH in Hvs. done.
  - split; [done|]. by destruct vs.
Qed.

Lemma all_values_None {A : Type} (values : list (option A)) :
  all_values values = None → ∃ i, values !! i = Some None.
Proof.
  induction values as [|[v|] values IH]; simpl; [done| |by exists 0%nat].
  destruct (all_values values); [done|]. intros _.
  destruct IH as [i Hi]; [done|]. by exists (S i).
Qed.

(** When every promise fulfils and every index settles, the whole fulfils
    with the values in index order, whatever the order of settlement. *)
Lemma settle_all_fulfils {A : Type} (vs : list A) (order : list nat) :
  ∀ values,
    length values = length vs →
    (∀ i, values !! i = Some None → i ∈ order) →
    (∀ i v, values !! i = Some (Some v) → vs !! i = Some v) →
    settle_all order (Ok <$> vs) values = Fulfilled vs.
Proof.
  induction order as [|i order IH]; intros values Hlen Hmissing Hagree.
  - destruct (all_values values) as [xs|] eqn:E.
    + assert (settle_all [] (Ok <$> vs) values = Fulfilled xs) as -> by (simpl; by rewrite E).
      f_equal. apply all_values_Some in E as ->.
      rewrite length_fmap in Hlen. apply list_eq_same_length with (length vs); [done..|].
      intros j x y _ Hx Hy. specialize (Hagree j x).
      rewrite list_lookup_fmap, Hx in Hagree. specialize (Hagree eq_refl). congruence.
    + apply all_values_None in E as [j Hj]. apply Hmissing in Hj.
      by apply elem_of_nil in Hj.
  - simpl. destruct (all_values values) as [xs|] eqn:E.
    + f_equal. apply all_values_Some in E as ->.
      rewrite length_fmap in Hlen. apply list_eq_same_length with (length vs); [done..|].
      intros j x y _ Hx Hy. specialize (Hagree j x).
      rewrite list_lookup_fmap, Hx in Hagree. specialize (Hagree eq_refl). congruence.
    + rewrite list_lookup_fmap. destruct (vs !! i) as [v|] eqn:Hi; simpl.
      * apply IH.
        -- by rewrite length_insert.
        -- intros j Hj. destruct (decide (i = j)) as [->|Hne].
           ++ rewrite list_lookup_insert_eq in Hj; [done|].
              rewrite Hlen. by eapply lookup_lt_Some.
           ++ rewrite list_lookup_insert_ne in Hj by done.
              apply Hmissing, elem_of_cons in Hj as [->|Hj]; done.
        -- intros j w Hj. destruct (decide (i = j)) as [->|Hne].
           ++ rewrite list_lookup_insert_eq in Hj; [congruence|].
              rewrite Hlen. by eapply lookup_lt_Some.
           ++ rewrite list_lookup_insert_ne in Hj by done. by apply Hagree.
      * apply IH; [done| |done].
        intros j Hj. pose proof Hj as Hj'.
        apply Hmissing, elem_of_cons in Hj as [->|Hj]; [|done].
        apply lookup_lt_Some in Hj'. apply lookup_ge_None in Hi. lia.
Qed.

(** When some promise rejects and every index settles, the whole rejects,
    with the reason of one of the rejected promises. *)
Lemma settle_all_rejects {A : Type} (promises : list (Completion A)) (order : list nat)
    (j : nat) (e0 : Exn) :
  promises !! j = Some (Throw e0) →
  ∀ values,
    values !! j = Some None →
    j ∈ order →
    ∃ e i, settle_all order promises values = Rejected e
           ∧ promises !! i = Some (Throw e).
Proof.
  intros Hj. induction order as [|i order IH]; intros values Hvj Hin.
  - by apply elem_of_nil in Hin.
  - simpl. destruct (all_values values) as [xs|] eqn:E.
    { apply all_values_Some in E as ->. rewrite list_lookup_fmap in Hvj.
      by destruct (xs !! j). }
    destruct (promises !! i) as [[v|e]|] eqn:Hi.
    + assert (i ≠ j) as Hne by congruence.
      apply IH.
      * by rewrite list_lookup_insert_ne.
      * apply elem_of_cons in Hin as [->|Hin]; done.
    + eauto.
    + assert (i ≠ j) as Hne by congruence.
      apply IH; [done|]. apply elem_of_cons in Hin as [->|Hin]; done.
Qed.

Lemma Promise_all_fulfils {A : Type} (vs : list A) (order : list nat) :
  (∀ i, (i < length vs)%nat → i ∈ order) →
  Promise_all order (Ok <$> vs) = Fulfilled vs.
Proof.
  intros Hcover. unfold Promise_all. apply settle_all_fulfils.
  - by rewrite length_replicate, length_fmap.
  - intros i [_ Hi]%lookup_replicate. rewrite length_fmap in Hi. by apply Hcover.
  - intros i v [? _]%lookup_replicate. done.
Qed.

Lemma Promise_all_rejects {A : Type} (promises : list (Completion A)) (order : list nat)
    (j : nat) (e0 : Exn) :
  (∀ i, (i < length promises)%nat → i ∈ order) →
  promises !! j = Some (Throw e0) →
  ∃ e i, Promise_all order promises = Rejected e ∧ promises !! i = Some (Throw e).
Proof.
  intros Hcover Hj. unfold Promise_all.
  apply lookup_lt_Some in Hj as Hlt.
  eapply settle_all_rejects; [done| |by apply Hcover].
  by apply lookup_replicate.
Qed.

(** ** src/tools.ts: handleToolCalls *)

(** A call whose promise fulfils: the tool is an own property of the
    registry, the arguments are JSON, and the awaited result of the tool's
    implementation is turned into the message. *)
Lemma handleToolCall_Ok (tools : ToolRecord) (call : ChatCompletionMessageToolCall)
    (message : ChatCompletionToolMessageParam) :
  fst (handleToolCall tools call) = Ok message →
  ∃ tool argument callResult,
    own_property tools (name (function call)) = Some tool
    ∧ JSON.parse (arguments (function call)) = Ok argument
    ∧ await (fst (implementation tool [argument])) = Ok callResult
    ∧ message = {| role := "tool";
                   tool_call_id := id call;
                   msg_name := name (function call);
                   content := callResultAsString callResult |}.
Proof.
  unfold handleToolCall, lookup_property.
  destruct (own_property tools (name (function call))) as [tool|] eqn:Hown.
  - destruct (JSON.parse (arguments (function call))) as [argument|] eqn:Hparse; [|done].
    destruct (implementation tool [argument]) as [result trace] eqn:Himpl. simpl.
    destruct (await result) as [callResult|] eqn:Hawait; [|done].
    simpl. intros [= <-]. exists tool, argument, callResult.
    by rewrite Himpl.
  - destruct (existsb _ _); [|done]. simpl.
    by destruct (JSON.parse (arguments (function call))).
Qed.

Lemma handleToolCall_unknown (tools : ToolRecord) (call : ChatCompletionMessageToolCall) :
  own_property tools (name (function call)) = None →
  handleToolCall tools call =
    if existsb (String.eqb (name (function call))) Object_prototype_keys
    then (match JSON.parse (arguments (function call)) with
          | Ok _ => Throw (TypeError (NotAFunction "tool.implementation"))
          | Throw e => Throw e
          end, [])
    else (Throw (TypeError (ReadPropertyOfUndefined "implementation")), []).
Proof.
  intros Hown. unfold handleToolCall, lookup_property. rewrite Hown.
  by destruct (existsb _ _).
Qed.

Lemma Forall_fulfilled {A B : Type} (f : A → Completion B) (l : list A) :
  Forall (λ x, ∃ y, f x = Ok y) l →
  ∃ ys, f <$> l = Ok <$> ys ∧ Forall2 (λ x y, f x = Ok y) l ys.
Proof.
  induction 1 as [|x l [y Hy] _ (ys & Hys & Hall)].
  - by exists [].
  - exists (y :: ys). rewrite !fmap_cons, Hy, Hys. split; [done|]. by constructor.
Qed.

Lemma handleToolCalls_fulfils
    (tools : ToolRecord) (toolCalls : list ChatCompletionMessageToolCall)
    (order : list nat) :
  (∀ i, (i < length toolCalls)%nat → i ∈ order) →
  Forall (λ call, ∃ message, fst (handleToolCall tools call) = Ok message) toolCalls →
  ∃ messages,
    fst (handleToolCalls tools toolCalls order) = Fulfilled messages
    ∧ Forall2 (λ call message, fst (handleToolCall tools call) = Ok message)
        toolCalls messages.
Proof.
  intros Hcover (messages & Heq & Hall)%Forall_fulfilled.
  pose proof (Forall2_length _ _ _ Hall) as Hlen.
  exists messages. split; [|done].
  unfold handleToolCalls. simpl. rewrite <- list_fmap_compose.
  change (fst ∘ handleToolCall tools) with (λ call, fst (handleToolCall tools call)).
  rewrite Heq. apply Promise_all_fulfils. by rewrite <- Hlen.
Qed.

Lemma handleToolCalls_rejects
    (tools : ToolRecord) (toolCalls : list ChatCompletionMessageToolCall)
    (order : list nat) :
  (∀ i, (i < length toolCalls)%nat → i ∈ order) →
  Exists (λ call, ∃ e, fst (handleToolCall tools call) = Throw e) toolCalls →
  ∃ e, fst (handleToolCalls tools toolCalls order) = Rejected e.
Proof.
  intros Hcover (call & Hin & e & He)%Exists_exists.
  apply list_elem_of_lookup in Hin as [j Hj].
  destruct (Promise_all_rejects
              (fst <$> (handleToolCall tools <$> toolCalls)) order j e)
    as (e' & _ & Hrej & _).
  - intros i Hi. apply Hcover. by rewrite !length_fmap in Hi.
  - by rewrite !list_lookup_fmap, Hj; simpl; rewrite He.
  - by exists e'.
Qed.

(** C3, as amended. Whatever the order in which the calls' promises settle:
    when every call succeeds, [handleToolCalls] fulfils with exactly one
    message per request, the message at each position being the one of the
    request at that position and carrying its id and its name; when some
    call fails, [handleToolCalls] rejects and returns no message at all. *)
Theorem handleToolCalls_keeps_request_order
    (tools : ToolRecord) (toolCalls : list ChatCompletionMessageToolCall)
    (order : list nat) :
  (∀ i, (i < length toolCalls)%nat → i ∈ order) →
  (Forall (λ call, ∃ message, fst (handleToolCall tools call) = Ok message) toolCalls →
     ∃ messages,
       fst (handleToolCalls tools toolCalls order) = Fulfilled messages
       ∧ length messages = length toolCalls
       ∧ ∀ i call,
           toolCalls !! i = Some call →
           ∃ message,
             messages !! i = Some message
             ∧ fst (handleToolCall tools call) = Ok message
             ∧ role message = "tool"
             ∧ tool_call_id message = id call
             ∧ msg_name message = name (function call))
  ∧ (Exists (λ call, ∃ e, fst (handleToolCall tools call) = Throw e) toolCalls →
       ∃ e, fst (handleToolCalls tools toolCalls order) = Rejected e).
Proof.
  intros Hcover. split.
  - intros Hok.
    destruct (handleToolCalls_fulfils tools toolCalls order Hcover Hok)
      as (messages & Hfulfilled & Hall).
    exists messages. split_and!; [done|by rewrite (Forall2_length _ _ _ Hall)|].
    intros i call Hcall.
    destruct (Forall2_lookup_l _ _ _ _ _ Hall Hcall) as (message & Hmessage & Hmsg).
    exists message. split_and!; try done;
      apply handleToolCall_Ok in Hmsg as (? & ? & ? & _ & _ & _ & ->); done.
  - by apply handleToolCalls_rejects.
Qed.

Lemma settle_all_Fulfilled_inv {A : Type} (promises : list (Completion A))
    (order : list nat) :
  ∀ values vs,
    length values = length promises →
    (∀ i v, values !! i = Some (Some v) → promises !! i = Some (Ok v)) →
    settle_all order promises values = Fulfilled vs →
    promises = Ok <$> vs.
Proof.
  assert (∀ values vs,
            length values = length promises →
            (∀ i v, values !! i = Some (Some v) → promises !! i = Some (Ok v)) →
            all_values values = Some vs → promises = Ok <$> vs) as Hdone.
  { intros values vs Hlen Hagree ->%all_values_Some.
    rewrite length_fmap in Hlen.
    apply list_eq_same_length with (length vs); [by rewrite length_fmap|lia|].
    intros i p p' _ Hp Hp'. rewrite list_lookup_fmap in Hp'.
    destruct (vs !! i) as [v|] eqn:Hv; [|done]. injection Hp' as <-.
    specialize (Hagree i v). rewrite list_lookup_fmap, Hv in Hagree.
    specialize (Hagree eq_refl). congruence. }
  induction order as [|i order IH]; intros values vs Hlen Hagree; simpl.
  - destruct (all_values values) as [xs|] eqn:E; [|done].
    intros [= <-]. by eapply Hdone.
  - destruct (all_values values) as [xs|] eqn:E.
    { intros [= <-]. by eapply Hdone. }
    destruct (promises !! i) as [[v|e]|] eqn:Hi; [|done|by apply IH].
    apply IH.
    + by rewrite length_insert.
    + intros j w Hj. destruct (decide (i = j)) as [->|Hne].
      * rewrite list_lookup_insert_eq in Hj; [congruence|].
        rewrite Hlen. by eapply lookup_lt_Some.
      * rewrite list_lookup_insert_ne in Hj by done. by apply Hagree.
Qed.

Lemma Promise_all_Fulfilled_inv {A : Type} (promises : list (Completion A))
    (order : list nat) (vs : list A) :
  Promise_all order promises = Fulfilled vs → promises = Ok <$> vs.
Proof.
  apply settle_all_Fulfilled_inv.
  - by rewrite length_replicate.
  - by intros i v [? _]%lookup_replicate.
Qed.



(** C5, as amended. A request whose name is not a key of the registry makes
    its own call fail before any implementation is entered, with the
    [TypeError] the runtime raises on reading [implementation] from
    [undefined] (for a name that [Object.prototype] defines: with the
    [SyntaxError] of [JSON.parse], or else the [TypeError] of calling what
    is not a function), and the whole batch rejects. No class of the spec's
    error taxonomy, and no [UnknownToolError], is raised for it. *)
Theorem handleToolCalls_unknown_tool
    (tools : ToolRecord) (toolCalls : list ChatCompletionMessageToolCall)
    (order : list nat) (call : ChatCompletionMessageToolCall) :
  (∀ i, (i < length toolCalls)%nat → i ∈ order) →
  call ∈ toolCalls →
  own_property tools (name (function call)) = None →
  (∃ e,
     handleToolCall tools call = (Throw e, [])
     ∧ spec_error e ≠ Some UnknownToolError
     ∧ (name (function call) ∉ Object_prototype_keys →
          e = TypeError (ReadPropertyOfUndefined "implementation"))
     ∧ (name (function call) ∈ Object_prototype_keys →
          e = SyntaxError ∨ e = TypeError (NotAFunction "tool.implementation")))
  ∧ (∃ e, fst (handleToolCalls tools toolCalls order) = Rejected e).
Proof.
  intros Hcover Hin Hown.
  assert (∃ e,
            handleToolCall tools call = (Throw e, [])
            ∧ spec_error e ≠ Some UnknownToolError
            ∧ (name (function call) ∉ Object_prototype_keys →
                 e = TypeError (ReadPropertyOfUndefined "implementation"))
            ∧ (name (function call) ∈ Object_prototype_keys →
                 e = SyntaxError ∨ e = TypeError (NotAFunction "tool.implementation")))
    as (e & He & Hclass & Hrest).
  { rewrite (handleToolCall_unknown _ _ Hown).
    destruct (existsb _ _) eqn:Hproto.
    - apply existsb_exists in Hproto as (k & Hk & ->%String.eqb_eq).
      apply list_elem_of_In in Hk.
      destruct (JSON.parse (arguments (function call))) as [argument|e] eqn:Hparse.
      + eexists. split_and!; [done|done|done|by right].
      + assert (e = SyntaxError) as ->.
        { unfold JSON.parse in Hparse.
          destruct (JSON.value _ _) as [[v r]|]; [destruct (JSON.skip_ws r)|];
            congruence. }
        eexists. split_and!; [done|done|done|by left].
    - eexists. split_and!; [done|done|done|].
      intros Hk%list_elem_of_In. exfalso.
      assert (existsb (String.eqb (name (function call))) Object_prototype_keys = true);
        [|congruence].
      apply existsb_exists. exists (name (function call)).
      split; [done|apply String.eqb_refl]. }
  split; [by exists e|].
  apply handleToolCalls_rejects; [done|].
  apply Exists_exists. exists call. split; [done|]. exists e. by rewrite He.
Qed.

(** *** The statements above on the examples *)

Example makeTool_reverse_tool :
  makeTool getPalindrome_schema reverse_implementation = Ok reverse_tool.
Proof. reflexivity. Qed.

Lemma handleToolCalls_keeps_request_order_witness :
  ∃ messages,
    fst (handleToolCalls [("reverse", reverse_tool)]
           [call_reverse "a" "abc"; call_reverse "b" "hello"; call_reverse "c" "xy"]
           [2; 0; 1]%nat)
    = Fulfilled messages
    ∧ tool_call_id <$> messages = ["a"; "b"; "c"]
    ∧ content <$> messages = [Some "cba"; Some "olleh"; Some "yx"].
Proof.
  destruct (handleToolCalls_keeps_request_order [("reverse", reverse_tool)]
              [call_reverse "a" "abc"; call_reverse "b" "hello"; call_reverse "c" "xy"]
              [2; 0; 1]%nat) as [Hfulfils _].
  { intros i Hi. apply list_elem_of_In. simpl in *. lia. }
  destruct Hfulfils as (messages & Hmessages & _).
  { repeat constructor; eexists; reflexivity. }
  exists messages. split; [exact Hmessages|].
  vm_compute in Hmessages. injection Hmessages as <-. split; reflexivity.
Defined.

(** C3, as stated, fails: of two requests the first succeeds on its own and
    the second carries a number where the tool takes a string;
    [handleToolCalls] rejects, and no message is returned for either. *)
Lemma handleToolCalls_rejects_whole_batch :
  fst (handleToolCall [("reverse", reverse_tool)] (call_reverse "1" "hello"))
  = Ok {| role := "tool"; tool_call_id := "1"; msg_name := "reverse";
          content := Some "olleh" |}
  ∧ fst (handleToolCalls [("reverse", reverse_tool)]
           [call_reverse "1" "hello"; ill_typed_call] [0; 1]%nat)
    = Rejected (ZodError [invalid_arguments
                            [invalid_type "string" "number" [Index 0; Key "input"]]]).
Proof. split; reflexivity. Qed.



(** What [toString] writes for integers that are not safe: the digits that
    tell the double from its neighbours, and the exponent form from 1e21. *)
Example Number_toString_large :
  map Number_toString
    [2 ^ 53; 2 ^ 53 + 1; 2 ^ 53 + 2; 2 ^ 60; 2 ^ 64; 10 ^ 20; 10 ^ 21; - 10 ^ 22;
     15 * 10 ^ 29; 2 ^ 70; 10 ^ 23; 2 ^ 1024 - 2 ^ 971]%Z
  = ["9007199254740992"; "9007199254740992"; "9007199254740994";
     "1152921504606847000"; "18446744073709552000"; "100000000000000000000";
     "1e+21"; "-1e+22"; "1.5e+30"; "1.1805916207174113e+21"; "1e+23";
     "1.7976931348623157e+308"].
Proof. vm_compute. reflexivity. Qed.

(** A number literal gives the double nearest to its value. *)
Example JSON_parse_numbers :
  JSON.parse "9007199254740993" = Ok (VNumber 9007199254740992)
  ∧ JSON.parse "-42" = Ok (VNumber (-42))
  ∧ JSON.parse "1e+21" = Ok (VNumber (10 ^ 21))
  ∧ JSON.parse "1e23" = Ok (VNumber 99999999999999991611392)
  ∧ JSON.parse "-12.50E1" = Ok (VNumber (-125))
  ∧ JSON.parse "[1.0,20e-1]" = Ok (VArray [VNumber 1; VNumber 2])
  ∧ JSON.parse "1." = Throw SyntaxError
  ∧ JSON.parse "1e" = Throw SyntaxError
  ∧ JSON.parse "01" = Throw SyntaxError
  ∧ JSON.parse "-" = Throw SyntaxError.
Proof. vm_compute. done. Qed.

Lemma handleToolCalls_unknown_tool_witness :
  unknown_call ∈ [call_reverse "1" "hello"; unknown_call]
  ∧ own_property [("reverse", reverse_tool)] (name (function unknown_call)) = None
  ∧ (∃ e,
       handleToolCall [("reverse", reverse_tool)] unknown_call = (Throw e, [])
       ∧ e = TypeError (ReadPropertyOfUndefined "implementation"))
  ∧ (∃ e,
       fst (handleToolCalls [("reverse", reverse_tool)]
              [call_reverse "1" "hello"; unknown_call] [1; 0]%nat)
       = Rejected e).
Proof.
  assert (unknown_call ∈ [call_reverse "1" "hello"; unknown_call]) as Hin
    by (apply list_elem_of_In; simpl; tauto).
  destruct (handleToolCalls_unknown_tool [("reverse", reverse_tool)]
              [call_reverse "1" "hello"; unknown_call] [1; 0]%nat unknown_call)
    as [(e & He & _ & Hkind & _) Hrejected].
  { intros i Hi. apply list_elem_of_In. simpl in *. lia. }
  { exact Hin. }
  { reflexivity. }
  split_and!; [exact Hin|reflexivity| |exact Hrejected].
  exists e. split; [exact He|]. apply Hkind.
  intros Hproto%list_elem_of_In. simpl in Hproto.
  repeat (destruct Hproto as [Hproto|Hproto]; [discriminate|]). exact Hproto.
Defined.

(** C5, as stated, fails: for a name that is no key of the registry the
    lookup itself gives [undefined] without failing, and the call then ends
    in the runtime's [TypeError] for reading a property of [undefined],
    which is no error class of the spec. *)
Lemma unknown_tool_raises_TypeError :
  lookup_property ([] : ToolRecord) (name (function unknown_call)) = Undefined
  ∧ handleToolCalls [] [unknown_call] [0%nat]
    = (Rejected (TypeError (ReadPropertyOfUndefined "implementation")), [])
  ∧ spec_error (TypeError (ReadPropertyOfUndefined "implementation")) = None.
Proof. split_and!; reflexivity. Qed.

(** ** src/tools.ts: the callable stored by makeTool *)

Lemma argumentType_overriddenFunctionSchema (schema : ZodFunction) :
  argumentType (overriddenFunctionSchema schema)
  = overriddenArgumentType (argumentType schema).
Proof. reflexivity. Qed.

Lemma await_parse_maybeAZodPromise (zodType : ZodType) (result : Outcome) :
  match await result with
  | Throw e => await (parse_maybeAZodPromise zodType result) = Throw e
  | Ok v =>
      match safeParse zodType v with
      | success d => await (parse_maybeAZodPromise zodType result) = Ok d
      | failure _ =>
          ∃ issues, await (parse_maybeAZodPromise zodType result) = Throw (ZodError issues)
      end
  end.
Proof.
  destruct result as [v|e|[v|e]]; simpl; try done;
    destruct (safeParse zodType v); simpl; eauto.
Qed.

(** An argument that the stored argument schema refuses: the callable
    raises zod's error, and the user-supplied function is not entered. *)
Lemma callableImplementation_failure (schema : ZodFunction) (impl : Value → Outcome)
    (raw : Value) (issues : list ZodIssue) :
  safeParse (default ZodUnknown (overriddenArgumentType (argumentType schema))) raw
  = failure issues →
  ∃ issues',
    callableImplementation schema impl [raw]
    = (Raises (ZodError [invalid_arguments issues']), []).
Proof.
  intros Hparse. rewrite callableImplementation_single.
  destruct (_parse_failure_any_path _ _ [Index 0] _ _ Hparse) as [issues' ->].
  eauto.
Qed.

(** An argument that the stored argument schema accepts: the user-supplied
    function is entered once, with the parsed argument ([input] taken out of
    its wrapper), and what it returns goes through the return schema. *)
Lemma callableImplementation_success (schema : ZodFunction) (impl : Value → Outcome)
    (raw data : Value) :
  safeParse (default ZodUnknown (overriddenArgumentType (argumentType schema))) raw
  = success data →
  ∃ argument,
    (if shouldOverrideArgumentWithNestedInputKey (argumentType schema)
     then member data "input" = Ok argument
     else argument = data)
    ∧ callableImplementation schema impl [raw]
      = (parse_maybeAZodPromise (returnType schema) (impl argument), [argument]).
Proof.
  intros Hparse. rewrite callableImplementation_single.
  rewrite (_parse_success_any_path _ _ [Index 0] _ _ Hparse).
  unfold unwrap_and_call, overriddenArgumentType in *.
  change (default VUndefined ([data] !! 0%nat)) with data.
  destruct (shouldOverrideArgumentWithNestedInputKey (argumentType schema)) eqn:Hshould.
  - destruct (argumentType schema) as [T|]; [|done].
    change (default ZodUnknown _) with (z_object [("input", T)]) in Hparse.
    unfold safeParse in Hparse. rewrite _parse_single_key_object in Hparse by done.
    destruct raw as [| | | | | |o]; try done.
    destruct (_parse T _ _) as [d|]; [|done]. injection Hparse as <-.
    exists d. by rewrite member_single_key_object.
  - by exists data.
Qed.

Lemma handleToolCall_own (tools : ToolRecord) (call : ChatCompletionMessageToolCall)
    (tool : Tool) (argument : Value) :
  own_property tools (name (function call)) = Some tool →
  JSON.parse (arguments (function call)) = Ok argument →
  handleToolCall tools call =
    (callResult ← await (fst (implementation tool [argument]));
     Ok {| role := "tool";
           tool_call_id := id call;
           msg_name := name (function call);
           content := callResultAsString callResult |},
     snd (implementation tool [argument])).
Proof.
  intros Hown Hparse. unfold handleToolCall, lookup_property.
  rewrite Hown, Hparse. by destruct (implementation tool [argument]).
Qed.

(** C10, as amended. The callable that [makeTool] stores parses its
    argument against the stored (possibly [input]-wrapped) zod argument
    schema before anything else: when zod's parse refuses the argument, the
    callable raises zod's error and the user-supplied function is never
    entered (the trace is empty), and so does a dispatched call whose
    decoded arguments zod's parse refuses. When zod's parse accepts the
    argument, the user-supplied function is entered once with the parsed
    argument, and the value it produces is parsed against the declared
    return schema: the parsed data is the result, a value that zod's parse
    refuses is an error, and an exception is passed on. What decides is
    zod's parse, not validity against the advertised JSON schema. *)
Theorem makeTool_validates_arguments_and_result
    (schema : ZodFunction) (impl : Value → Outcome) (tool : Tool) :
  makeTool schema impl = Ok tool →
  ∀ raw,
    (∀ A issues,
       argumentType (zodFunctionSchema tool) = Some A →
       safeParse A raw = failure issues →
       (∃ issues',
          implementation tool [raw]
          = (Raises (ZodError [invalid_arguments issues']), []))
       ∧ (∀ tools call,
            own_property tools (name (function call)) = Some tool →
            JSON.parse (arguments (function call)) = Ok raw →
            ∃ issues',
              handleToolCall tools call
              = (Throw (ZodError [invalid_arguments issues']), [])))
    ∧ (∀ data,
         safeParse (default ZodUnknown (argumentType (zodFunctionSchema tool))) raw
         = success data →
         ∃ argument,
           (if shouldOverrideArgumentWithNestedInputKey (argumentType schema)
            then member data "input" = Ok argument
            else argument = data)
           ∧ snd (implementation tool [raw]) = [argument]
           ∧ (∀ v d,
                await (impl argument) = Ok v →
                safeParse (returnType schema) v = success d →
                await (fst (implementation tool [raw])) = Ok d)
           ∧ (∀ v issues,
                await (impl argument) = Ok v →
                safeParse (returnType schema) v = failure issues →
                ∃ issues',
                  await (fst (implementation tool [raw])) = Throw (ZodError issues'))
           ∧ (∀ e,
                await (impl argument) = Throw e →
                await (fst (implementation tool [raw])) = Throw e)).
Proof.
  intros [_ ->]%makeTool_Ok raw. simpl.
  rewrite argumentType_overriddenFunctionSchema. split.
  - intros A issues HA Hparse.
    destruct (callableImplementation_failure schema impl raw issues) as [issues' Hcall].
    { by rewrite HA. }
    split; [by exists issues'|].
    intros tools call Hown Hjson. exists issues'.
    rewrite (handleToolCall_own _ _ _ _ Hown Hjson). simpl. by rewrite Hcall.
  - intros data Hparse.
    destruct (callableImplementation_success schema impl raw data Hparse)
      as (argument & Hargument & Hcall).
    exists argument. rewrite Hcall. simpl. split_and!; try done.
    + intros v d Hv Hd.
      pose proof (await_parse_maybeAZodPromise (returnType schema) (impl argument)) as H.
      by rewrite Hv, Hd in H.
    + intros v issues Hv Hissues.
      pose proof (await_parse_maybeAZodPromise (returnType schema) (impl argument)) as H.
      by rewrite Hv, Hissues in H.
    + intros e He.
      pose proof (await_parse_maybeAZodPromise (returnType schema) (impl argument)) as H.
      by rewrite He in H.
Qed.

Lemma makeTool_validates_arguments_and_result_witness :
  makeTool getPalindrome_schema reverse_implementation = Ok reverse_tool
  ∧ (∃ issues,
       implementation reverse_tool [VObject [("input", VNumber 5)]]
       = (Raises (ZodError [invalid_arguments issues]), []))
  ∧ (∃ issues,
       handleToolCall [("reverse", reverse_tool)] ill_typed_call
       = (Throw (ZodError [invalid_arguments issues]), [])).
Proof.
  split; [reflexivity|].
  destruct (makeTool_validates_arguments_and_result
              getPalindrome_schema reverse_implementation reverse_tool eq_refl
              (VObject [("input", VNumber 5)])) as [Hrefused _].
  destruct (Hrefused (z_object [("input", ZodString)])
              [invalid_type "string" "number" [Key "input"]] eq_refl eq_refl)
    as [Hcallable Hdispatch].
  split; [exact Hcallable|].
  apply Hdispatch; reflexivity.
Defined.

(** C10, as stated, fails: the tool [count] advertises, for the entries of
    its [input], a schema with [additionalProperties: false]. The arguments
    [{"input":[{"a":1,"b":2}]}] are not valid against the advertised schema,
    since [b] is an additional property; yet the call raises no validation
    error: zod strips [b], and the user-supplied function runs on
    [[{ a: 1 }]]. The arguments without [b] are valid against the
    advertised schema. *)
Lemma makeTool_accepts_what_advertised_schema_refuses :
  makeTool count_schema count_implementation = Ok count_tool
  ∧ ∃ entry advertised,
      formatTools [("count", count_tool)] = Ok [entry]
      ∧ fn_parameters (tool_function entry) = Some advertised
      ∧ get_property
          (get_property (get_property (get_property (VObject advertised) "properties")
                           "input") "items") "additionalProperties"
        = VBool false
      ∧ JSON.parse (arguments (function count_call))
        = Ok (VObject [("input", VArray [VObject [("a", VNumber 1); ("b", VNumber 2)]])])
      ∧ valid_against advertised
          (VObject [("input", VArray [VObject [("a", VNumber 1); ("b", VNumber 2)]])])
        = false
      ∧ valid_against advertised
          (VObject [("input", VArray [VObject [("a", VNumber 1)]])])
        = true
      ∧ handleToolCall [("count", count_tool)] count_call
        = (Ok {| role := "tool"; tool_call_id := "3"; msg_name := "count";
                 content := Some "1" |},
           [VArray [VObject [("a", VNumber 1)]]]).
Proof. split; [reflexivity|]. do 2 eexists. split_and!; reflexivity. Qed.

(** C2. For a tool built by [makeTool] from a single argument type [T] that
    is not an object type, the stored argument schema is [{ input: T }], and
    an argument that this schema accepts reaches the user-supplied function
    as its parsed [input], never as the wrapper; so does a dispatched call.
    The request [{ id: "1", name: "reverse", arguments: '{"input":"hello"}' }]
    against the string-reversing tool gives the message with id "1", name
    "reverse" and content "olleh". *)
Theorem makeTool_wraps_non_object_argument
    (schema : ZodFunction) (impl : Value → Outcome) (T : ZodType) :
  parameters_items schema = [Some T] →
  typeName T ≠ "ZodObject" →
  (∃ tool,
     makeTool schema impl = Ok tool
     ∧ parameters_items (zodFunctionSchema tool) = [Some (z_object [("input", T)])]
     ∧ (∀ raw data,
          safeParse (z_object [("input", T)]) raw = success data →
          ∃ argument,
            safeParse T (get_property raw "input") = success argument
            ∧ implementation tool [raw]
              = (parse_maybeAZodPromise (returnType schema) (impl argument), [argument])
            ∧ ∀ tools call,
                own_property tools (name (function call)) = Some tool →
                JSON.parse (arguments (function call)) = Ok raw →
                snd (handleToolCall tools call) = [argument])
     ∧ (∀ v parsed,
          safeParse T v = success parsed →
          implementation tool [VObject [("input", v)]]
          = (parse_maybeAZodPromise (returnType schema) (impl parsed), [parsed])))
  ∧ makeTool getPalindrome_schema reverse_implementation = Ok reverse_tool
  ∧ handleToolCalls [("reverse", reverse_tool)] [call_reverse "1" "hello"] [0%nat]
    = (Fulfilled [{| role := "tool"; tool_call_id := "1"; msg_name := "reverse";
                     content := Some "olleh" |}],
       [VString "hello"]).
Proof.
  intros Hitems Hname. split; [|split; reflexivity].
  assert (argumentType schema = Some T) as Harg.
  { unfold argumentType. by rewrite Hitems. }
  eexists. split; [apply makeTool_at_most_one_argument; rewrite Hitems; simpl; lia|].
  simpl. split_and!.
  - unfold overriddenFunctionSchema, overriddenArgumentType,
      shouldOverrideArgumentWithNestedInputKey.
    rewrite Harg. apply String.eqb_neq in Hname. by rewrite Hname.
  - intros raw data Hparse.
    pose proof (callableImplementation_wrapped schema impl T raw Harg Hname) as H.
    rewrite Hparse in H. destruct H as (argument & Hargument & Hcall).
    exists argument. split_and!; [done..|].
    intros tools call Hown Hjson.
    rewrite (handleToolCall_own _ _ _ _ Hown Hjson). simpl. by rewrite Hcall.
  - intros v parsed Hv.
    pose proof (callableImplementation_wrapped schema impl T (VObject [("input", v)])
                  Harg Hname) as H.
    unfold safeParse in H. rewrite _parse_single_key_object in H by done.
    simpl in H. rewrite (_parse_success_any_path _ _ [Key "input"] _ _ Hv) in H.
    destruct H as (argument & Hargument & Hcall).
    change (safeParse T v = success argument) in Hargument.
    rewrite Hv in Hargument. by injection Hargument as <-.
Qed.

Lemma makeTool_wraps_non_object_argument_witness :
  parameters_items getPalindrome_schema = [Some ZodString]
  ∧ parameters_items (zodFunctionSchema reverse_tool)
    = [Some (z_object [("input", ZodString)])]
  ∧ implementation reverse_tool [VObject [("input", VString "hello")]]
    = (Returns (VString "olleh"), [VString "hello"]).
Proof.
  split; [reflexivity|].
  destruct (makeTool_wraps_non_object_argument
              getPalindrome_schema reverse_implementation ZodString)
    as [(tool & Htool & Hschema & _ & Hcall) _]; [reflexivity|discriminate|].
  assert (Ok tool = Ok reverse_tool) as [= ->] by (rewrite <- Htool; reflexivity).
  split; [exact Hschema|].
  rewrite (Hcall (VString "hello") (VString "hello") eq_refl). reflexivity.
Defined.

(** ** src/tools.ts: formatTools *)

Lemma map_throwing_Ok {A B : Type} (f : A → Completion B) (l : list A) :
  Forall (λ x, ∃ y, f x = Ok y) l →
  ∃ ys, map_throwing f l = Ok ys ∧ Forall2 (λ x y, f x = Ok y) l ys.
Proof.
  induction 1 as [|x l [y Hy] _ (ys & Hys & Hall)]; simpl.
  - by exists [].
  - exists (y :: ys). rewrite Hy. simpl. rewrite Hys. simpl.
    split; [done|by constructor].
Qed.

Lemma map_throwing_Throw {A B : Type} (f : A → Completion B) (l : list A)
    (P : Exn → Prop) :
  (∀ x e, f x = Throw e → P e) →
  Exists (λ x, ∃ e, f x = Throw e) l →
  ∃ e, map_throwing f l = Throw e ∧ P e.
Proof.
  intros HP. induction 1 as [x l [e He]|x l _ (e & He & HPe)]; simpl.
  - rewrite He. simpl. eauto.
  - destruct (f x) as [y|e'] eqn:Hx; simpl.
    + rewrite He. simpl. eauto.
    + eauto.
Qed.

Lemma formatTool_formattable (name : string) (fn : Tool) :
  formattable fn = true →
  ∃ trimmedReturn parameters,
    trimGeneratedJsonSchema (zodToJsonSchema (returnType (zodFunctionSchema fn)))
    = Ok trimmedReturn
    ∧ match argumentType (zodFunctionSchema fn) with
      | Some A => ∃ trimmed,
                    trimGeneratedJsonSchema (zodToJsonSchema A) = Ok trimmed
                    ∧ parameters = Some trimmed
      | None => parameters = None
      end
    ∧ formatTool name fn
      = Ok {| tool_type := "function";
              tool_function :=
                {| fn_name := name;
                   fn_description :=
                     (if truthy (def_description (zodFunctionSchema fn))
                      then default "" (def_description (zodFunctionSchema fn))
                             +:+ newline +:+ newline
                      else "")
                     +:+ "Responses will match the following JSONSchema definition: "
                     +:+ template_string (JSON.stringify (VObject trimmedReturn));
                   fn_parameters := parameters |} |}.
Proof.
  unfold formattable, formatTool, invariant, argumentType.
  intros [[Hlen Hret]%andb_true_iff Harg]%andb_true_iff.
  apply Nat.leb_le in Hlen.
  destruct (trimGeneratedJsonSchema_zodToJsonSchema _ Hret) as [trimmedReturn Htrim].
  exists trimmedReturn. rewrite Htrim.
  destruct (parameters_items (zodFunctionSchema fn)) as [|[A|] [|??]];
    simpl in *; try lia.
  - by exists None.
  - destruct (trimGeneratedJsonSchema_zodToJsonSchema _ Harg) as [trimmed HtrimA].
    exists (Some trimmed). rewrite HtrimA. simpl. eauto.
  - by exists None.
Qed.

Lemma formatTool_not_formattable (name : string) (fn : Tool) :
  formattable fn = false →
  ∃ message, formatTool name fn = Throw (InvariantFailed message).
Proof.
  unfold formattable, formatTool, invariant, argumentType.
  rewrite (trimGeneratedJsonSchema_unfold
             (zodToJsonSchema (returnType (zodFunctionSchema fn)))).
  destruct (parameters_items (zodFunctionSchema fn)) as [|[A|] [|??]]; simpl;
    destruct (has_own (zodToJsonSchema (returnType (zodFunctionSchema fn))) "type");
    simpl; eauto; try done.
  rewrite (trimGeneratedJsonSchema_unfold (zodToJsonSchema A)).
  intros ->. simpl. eauto.
Qed.

Lemma formatTool_throws_invariant (name : string) (fn : Tool) (e : Exn) :
  formatTool name fn = Throw e → ∃ message, e = InvariantFailed message.
Proof.
  destruct (formattable fn) eqn:Hfn.
  - destruct (formatTool_formattable name fn Hfn) as (? & ? & _ & _ & ->). done.
  - destruct (formatTool_not_formattable name fn Hfn) as [message ->].
    intros [= <-]. eauto.
Qed.

Lemma formattable_makeTool (schema : ZodFunction) (impl : Value → Outcome) (tool : Tool) :
  makeTool schema impl = Ok tool →
  formattable tool = has_own (zodToJsonSchema (returnType schema)) "type"
  ∧ (argumentType (zodFunctionSchema tool) = None ↔ argumentType schema = None).
Proof.
  intros [_ ->]%makeTool_Ok. unfold formattable. simpl.
  rewrite argumentType_overriddenFunctionSchema.
  unfold overriddenArgumentType, shouldOverrideArgumentWithNestedInputKey.
  unfold returnType.
  destruct (argumentType schema) as [A|]; simpl.
  - destruct (String.eqb (typeName A) "ZodObject") eqn:HA; simpl.
    + rewrite (zodToJsonSchema_has_type A).
      apply String.eqb_eq in HA. rewrite HA. simpl. by rewrite andb_true_r.
    + rewrite (zodToJsonSchema_has_type (z_object [("input", A)])), z_object_single.
      simpl. by rewrite andb_true_r.
  - by rewrite andb_true_r.
Qed.

(** C9, as amended. For a registry in which every tool has at most one
    argument and JSON schemas with a [type] key for its return type and its
    argument (for a tool built by [makeTool]: whose declared return type has
    such a schema), [formatTools] gives one entry per tool, in registry
    order, of type "function", with the tool's name, with the description
    made of the tool's own description and a blank line, when it has a
    non-empty one, followed by the reminder of the trimmed return schema,
    and with [parameters] absent when the tool has no argument and the
    trimmed argument schema when it has one. For any other registry
    [formatTools] fails on an invariant. The zero-argument tool described as
    "temperature lookup" gets an entry without [parameters] whose
    description holds that text and the reminder. *)
Theorem formatTools_entries (tools : ToolRecord) :
  (Forall (λ p, formattable p.2 = true) tools →
     ∃ entries,
       formatTools tools = Ok entries
       ∧ length entries = length tools
       ∧ ∀ i name fn,
           tools !! i = Some (name, fn) →
           ∃ entry trimmedReturn,
             entries !! i = Some entry
             ∧ tool_type entry = "function"
             ∧ fn_name (tool_function entry) = name
             ∧ trimGeneratedJsonSchema
                 (zodToJsonSchema (returnType (zodFunctionSchema fn)))
               = Ok trimmedReturn
             ∧ fn_description (tool_function entry)
               = (if truthy (def_description (zodFunctionSchema fn))
                  then default "" (def_description (zodFunctionSchema fn))
                         +:+ newline +:+ newline
                  else "")
                 +:+ "Responses will match the following JSONSchema definition: "
                 +:+ default "undefined" (JSON.stringify (VObject trimmedReturn))
             ∧ (argumentType (zodFunctionSchema fn) = None →
                  fn_parameters (tool_function entry) = None)
             ∧ (∀ A,
                  argumentType (zodFunctionSchema fn) = Some A →
                  ∃ trimmed,
                    trimGeneratedJsonSchema (zodToJsonSchema A) = Ok trimmed
                    ∧ fn_parameters (tool_function entry) = Some trimmed))
  ∧ (Exists (λ p, formattable p.2 = false) tools →
       ∃ message, formatTools tools = Throw (InvariantFailed message))
  ∧ (∀ schema impl tool,
       makeTool schema impl = Ok tool →
       formattable tool = has_own (zodToJsonSchema (returnType schema)) "type"
       ∧ (argumentType (zodFunctionSchema tool) = None ↔ argumentType schema = None))
  ∧ makeTool weather_schema weather_implementation = Ok weather_tool
  ∧ formatTools [("getWeather", weather_tool)]
    = Ok [{| tool_type := "function";
             tool_function :=
               {| fn_name := "getWeather";
                  fn_description :=
                    "temperature lookup" +:+ newline +:+ newline
                    +:+ "Responses will match the following JSONSchema definition: "
                    +:+ "{" +:+ q "type" +:+ ":" +:+ q "object" +:+ ","
                    +:+ q "properties" +:+ ":{"
                    +:+ q "temperature" +:+ ":{" +:+ q "type" +:+ ":" +:+ q "number" +:+ "},"
                    +:+ q "description" +:+ ":{" +:+ q "type" +:+ ":" +:+ q "string" +:+ "}},"
                    +:+ q "required" +:+ ":[" +:+ q "temperature" +:+ ","
                    +:+ q "description" +:+ "]}";
                  fn_parameters := None |} |}].
Proof.
  split_and!; [| |apply formattable_makeTool|reflexivity|reflexivity].
  - intros Hall. unfold formatTools.
    destruct (map_throwing_Ok (λ p, formatTool p.1 p.2) tools) as (entries & Hentries & Hall2).
    { eapply Forall_impl; [exact Hall|]. intros [name fn] Hfn. simpl in *.
      destruct (formatTool_formattable name fn Hfn) as (? & ? & _ & _ & ->). eauto. }
    exists entries. split_and!; [done|by rewrite (Forall2_length _ _ _ Hall2)|].
    intros i name fn Hi.
    destruct (Forall2_lookup_l _ _ _ _ _ Hall2 Hi) as (entry & Hentry & Hformat).
    simpl in Hformat.
    assert (formattable fn = true) as Hfn.
    { eapply (Forall_lookup_1 _ _ _ _ Hall Hi). }
    destruct (formatTool_formattable name fn Hfn)
      as (trimmedReturn & parameters & Hret & Hparameters & Heq).
    rewrite Heq in Hformat. injection Hformat as <-.
    eexists. exists trimmedReturn. split; [exact Hentry|].
    cbn [tool_type tool_function fn_name fn_description fn_parameters].
    split_and!; try done.
    + intros Hnone. by rewrite Hnone in Hparameters.
    + intros A HA. by rewrite HA in Hparameters.
  - intros Hex. unfold formatTools.
    destruct (map_throwing_Throw (λ p, formatTool p.1 p.2) tools
                (λ e, ∃ message, e = InvariantFailed message))
      as (e & He & message & ->).
    + intros [name fn] e. apply formatTool_throws_invariant.
    + eapply Exists_impl; [exact Hex|]. intros [name fn] Hfn. simpl in *.
      destruct (formatTool_not_formattable name fn Hfn) as [message ->]. eauto.
    + eauto.
Qed.

(** C9, as stated, fails: [makeTool] accepts a tool declared without return
    type, and [formatTools] fails on the registry that holds it, because no
    JSON schema with a [type] describes [z.unknown()]. *)
Lemma formatTools_rejects_missing_return_type :
  makeTool ping_schema (λ _, Returns VUndefined) = Ok ping_tool
  ∧ formatTools [("ping", ping_tool)] = Throw (InvariantFailed not_convertible_message).
Proof. split; reflexivity. Qed.


(** * Further properties of the code *)

(** ** src/util.ts: trimGeneratedJsonSchema, continued *)

(** X1. Trimming is idempotent: a trimmed schema is trimmed to itself. *)
Theorem trimGeneratedJsonSchema_idempotent (schema trimmed : JsObject Value) :
  trimGeneratedJsonSchema schema = Ok trimmed →
  trimGeneratedJsonSchema trimmed = Ok trimmed.
Proof.
  rewrite trimGeneratedJsonSchema_unfold.
  destruct (has_own schema "type"); [|done].
  destruct (has_own schema "properties"); intros [= <-]; reflexivity.
Qed.

Lemma trimGeneratedJsonSchema_idempotent_witness :
  trimGeneratedJsonSchema (zodToJsonSchema (z_object [("result", ZodString)]))
  = Ok [("type", VString "object");
        ("properties", VObject [("result", VObject [("type", VString "string")])]);
        ("required", VArray [VString "result"]);
        ("description", VUndefined)]
  ∧ trimGeneratedJsonSchema
      [("type", VString "object");
       ("properties", VObject [("result", VObject [("type", VString "string")])]);
       ("required", VArray [VString "result"]);
       ("description", VUndefined)]
    = Ok [("type", VString "object");
          ("properties", VObject [("result", VObject [("type", VString "string")])]);
          ("required", VArray [VString "result"]);
          ("description", VUndefined)].
Proof.
  split; [reflexivity|].
  apply (trimGeneratedJsonSchema_idempotent
           (zodToJsonSchema (z_object [("result", ZodString)]))).
  reflexivity.
Defined.

(** ** zod-to-json-schema: the keys of a generated schema *)

Lemma isOptional_typeName (t : ZodType) :
  isOptional t = String.eqb (typeName t) "ZodUnknown".
Proof.
  unfold isOptional, safeParse. induction t; simpl; try done.
Qed.

Lemma parseDef_described_has_properties (t : ZodType) :
  ∀ outer,
    has_own (parseDef_described outer t) "properties"
    = String.eqb (typeName t) "ZodObject".
Proof.
  induction t as [| | | |element _|shape|t IH d]; intros outer; simpl;
    try (unfold has_own; by rewrite own_property_addMeta).
  apply IH.
Qed.

Lemma own_property_zodToJsonSchema (t : ZodType) (k : string) :
  String.eqb "$schema" k = false →
  own_property (zodToJsonSchema t) k = own_property (parseDef t) k.
Proof.
  intros Hk. unfold zodToJsonSchema. by rewrite own_property_set_property, Hk.
Qed.

(** The trimmed schema of a type that is not an object type: [type] and
    [description] only. *)
Lemma trimGeneratedJsonSchema_non_object (t : ZodType) (trimmed : JsObject Value) :
  typeName t ≠ "ZodObject" →
  trimGeneratedJsonSchema (zodToJsonSchema t) = Ok trimmed →
  trimmed = [("type", default VUndefined (own_property (parseDef t) "type"));
             ("description", default VUndefined (own_property (parseDef t) "description"))].
Proof.
  intros Hname%String.eqb_neq. rewrite trimGeneratedJsonSchema_unfold.
  destruct (has_own (zodToJsonSchema t) "type"); [|done].
  assert (has_own (zodToJsonSchema t) "properties" = false) as ->.
  { unfold has_own. rewrite own_property_zodToJsonSchema by done.
    pose proof (parseDef_described_has_properties t None) as H.
    unfold has_own, parseDef in *. by rewrite H. }
  rewrite !own_property_zodToJsonSchema by done. by intros [= <-].
Qed.

(** The trimmed schema of [{ k: T }]. *)
Lemma trimGeneratedJsonSchema_single_key (k : string) (T : ZodType) :
  trimGeneratedJsonSchema (zodToJsonSchema (z_object [(k, T)]))
  = Ok [("type", VString "object");
        ("properties", VObject [(k, VObject (parseDef T))]);
        ("required",
         if String.eqb (typeName T) "ZodUnknown" then VUndefined
         else VArray [VString k]);
        ("description", VUndefined)].
Proof.
  rewrite z_object_single, trimGeneratedJsonSchema_unfold.
  assert (∀ key, String.eqb "$schema" key = false →
            own_property (zodToJsonSchema (ZodObject [(k, T)])) key
            = own_property
                ([("type", VString "object");
                  ("properties", VObject [(k, VObject (parseDef T))])]
                   ++ (if String.eqb (typeName T) "ZodUnknown" then []
                       else [("required", VArray [VString k])])
                   ++ [("additionalProperties", VBool false)]) key) as Hown.
  { intros key Hkey. rewrite own_property_zodToJsonSchema by done.
    unfold parseDef. simpl. rewrite isOptional_typeName.
    replace (set_property [] k (VObject (parseDef_described None T)))
      with [(k, VObject (parseDef_described None T))]
      by (unfold set_property; simpl; by destruct (array_index k)).
    by destruct (String.eqb (typeName T) "ZodUnknown"). }
  unfold has_own. rewrite !Hown by done.
  by destruct (String.eqb (typeName T) "ZodUnknown").
Qed.

(** ** src/ai.ts: the schemas of a contract *)

Lemma validateFunction_argument (zodFunction : ZodFunction) (contract : FunctionContract) :
  validateFunction zodFunction = Ok contract →
  ∃ A,
    parameters_items zodFunction = [Some A]
    ∧ trimGeneratedJsonSchema (zodToJsonSchema A) = Ok (inputSchema contract).
Proof.
  intros (Hlen & _ & _ & Hin & _)%validateFunction_Ok.
  destruct (parameters_items zodFunction) as [|[A|] [|??]]; try done.
  by exists A.
Qed.

(** X2. The input schema of a contract is the trimmed schema of the argument
    type itself, never wrapped: for an argument that is not an object type
    it has the keys [type] and [description] and nothing else, so that the
    [items] of an array argument are not passed on; for an object type it
    has the four keys. *)
Theorem validateFunction_inputSchema_keys
    (zodFunction : ZodFunction) (contract : FunctionContract) :
  validateFunction zodFunction = Ok contract →
  ∃ A,
    parameters_items zodFunction = [Some A]
    ∧ trimGeneratedJsonSchema (zodToJsonSchema A) = Ok (inputSchema contract)
    ∧ own_property (inputSchema contract) "type" = Some (VString
        (if String.eqb (typeName A) "ZodObject" then "object"
         else if String.eqb (typeName A) "ZodArray" then "array"
         else if String.eqb (typeName A) "ZodString" then "string"
         else if String.eqb (typeName A) "ZodNumber" then "number"
         else "boolean"))
    ∧ (typeName A ≠ "ZodObject" →
         keys (inputSchema contract) = ["type"; "description"]
         ∧ own_property (inputSchema contract) "items" = None)
    ∧ (typeName A = "ZodObject" →
         keys (inputSchema contract) = ["type"; "properties"; "required"; "description"]).
Proof.
  intros Hok. destruct (validateFunction_argument _ _ Hok) as (A & Hitems & Htrim).
  exists A. split_and!; [done|done| | |].
  - pose proof Htrim as Htrim'.
    rewrite trimGeneratedJsonSchema_unfold in Htrim'.
    destruct (has_own (zodToJsonSchema A) "type") eqn:Htype; [|done].
    rewrite zodToJsonSchema_has_type in Htype.
    assert (own_property (inputSchema contract) "type"
            = Some (default VUndefined (own_property (parseDef A) "type"))) as ->.
    { rewrite <- (own_property_zodToJsonSchema A "type") by done.
      destruct (has_own (zodToJsonSchema A) "properties");
        injection Htrim' as <-; reflexivity. }
    f_equal. clear -Htype. unfold parseDef. generalize (@None string).
    induction A as [| | | |element _|shape|t IH d]; intros outer; simpl in *;
      try done; try (by rewrite own_property_addMeta).
    by apply IH.
  - intros Hname. rewrite (trimGeneratedJsonSchema_non_object A _ Hname Htrim). done.
  - intros Hname. rewrite trimGeneratedJsonSchema_unfold in Htrim.
    destruct (has_own (zodToJsonSchema A) "type"); [|done].
    assert (has_own (zodToJsonSchema A) "properties" = true) as Hprops.
    { unfold has_own. rewrite own_property_zodToJsonSchema by done.
      pose proof (parseDef_described_has_properties A None) as H.
      unfold has_own, parseDef in *. rewrite H. by apply String.eqb_eq in Hname as ->. }
    rewrite Hprops in Htrim. by injection Htrim as <-.
Qed.

Lemma validateFunction_inputSchema_keys_witness :
  ∃ contract,
    validateFunction
      (describe (returns (args z_function [Some (ZodArray ZodString)]) ZodString)
         "Counts the words")
    = Ok contract
    ∧ keys (inputSchema contract) = ["type"; "description"]
    ∧ own_property (inputSchema contract) "items" = None.
Proof.
  eexists. split; [reflexivity|].
  destruct (validateFunction_inputSchema_keys
              (describe (returns (args z_function [Some (ZodArray ZodString)]) ZodString)
                 "Counts the words") _ eq_refl)
    as (A & HA & _ & _ & Hkeys & _).
  injection HA as <-. apply Hkeys. discriminate.
Defined.

(** X3. The output schema of a contract always describes an object. For a
    return type [T] that is not an object type it is exactly the schema of
    an object with the single, required property [result], which holds the
    schema generated for [T]. *)
Theorem validateFunction_outputSchema_object
    (zodFunction : ZodFunction) (contract : FunctionContract) :
  validateFunction zodFunction = Ok contract →
  own_property (outputSchema contract) "type" = Some (VString "object")
  ∧ keys (outputSchema contract) = ["type"; "properties"; "required"; "description"]
  ∧ (typeName (returnType zodFunction) ≠ "ZodObject" →
       outputSchema contract
       = [("type", VString "object");
          ("properties", VObject [("result", VObject (parseDef (returnType zodFunction)))]);
          ("required", VArray [VString "result"]);
          ("description", VUndefined)]).
Proof.
  intros (_ & _ & Hret & _ & Hout & _)%validateFunction_Ok.
  unfold returnTypeWrappedInObject, providedReturnTypeIsAnObject in Hout.
  destruct (String.eqb (typeName (returnType zodFunction)) "ZodObject") eqn:Hname.
  - split_and!; [| |by intros ?%String.eqb_neq; congruence].
    + rewrite trimGeneratedJsonSchema_unfold in Hout.
      destruct (has_own (zodToJsonSchema (returnType zodFunction)) "type"); [|done].
      assert (own_property (outputSchema contract) "type"
              = Some (default VUndefined
                        (own_property (parseDef (returnType zodFunction)) "type"))) as ->.
      { rewrite <- (own_property_zodToJsonSchema _ "type") by done.
        destruct (has_own (zodToJsonSchema (returnType zodFunction)) "properties");
          injection Hout as <-; reflexivity. }
      f_equal. clear -Hname. unfold parseDef. generalize (@None string).
      induction (returnType zodFunction) as [| | | |element _|shape|t IH d];
        intros outer; simpl in *; try done; try (by rewrite own_property_addMeta).
      by apply IH.
    + rewrite trimGeneratedJsonSchema_unfold in Hout.
      destruct (has_own (zodToJsonSchema (returnType zodFunction)) "type"); [|done].
      assert (has_own (zodToJsonSchema (returnType zodFunction)) "properties" = true)
        as Hprops.
      { unfold has_own. rewrite own_property_zodToJsonSchema by done.
        pose proof (parseDef_described_has_properties (returnType zodFunction) None) as H.
        unfold has_own, parseDef in *. by rewrite H, Hname. }
      rewrite Hprops in Hout. by injection Hout as <-.
  - rewrite trimGeneratedJsonSchema_single_key in Hout.
    apply String.eqb_neq in Hret. rewrite Hret in Hout. injection Hout as <-.
    done.
Qed.

Lemma validateFunction_outputSchema_object_witness :
  ∃ contract,
    validateFunction listing_fn = Ok contract
    ∧ outputSchema contract
      = [("type", VString "object");
         ("properties", VObject [("result", VObject (parseDef (returnType listing_fn)))]);
         ("required", VArray [VString "result"]);
         ("description", VUndefined)].
Proof.
  eexists. split; [reflexivity|].
  destruct (validateFunction_outputSchema_object listing_fn _ eq_refl)
    as (_ & _ & Hwrapped).
  apply Hwrapped. discriminate.
Defined.

(** ** src/ai.ts: postProcessResult *)

(** X4. For a return type [T] that is not an object type, [postProcessResult]
    returns a value only for an object whose [result] is valid under [T],
    and the value is the data parsed from that [result], whatever other keys
    the object carries; a reply that is not an object (a bare value, an
    array, [null]) and a reply whose [result] is missing or invalid make it
    throw zod's error. *)
Theorem postProcessResult_sound
    (zodFunction : ZodFunction) (contract : FunctionContract) (raw : Value) :
  validateFunction zodFunction = Ok contract →
  typeName (returnType zodFunction) ≠ "ZodObject" →
  (∀ x,
     postProcessResult contract raw = Ok x ↔
     ∃ o, raw = VObject o
          ∧ safeParse (returnType zodFunction) (default VUndefined (own_property o "result"))
            = success x)
  ∧ ((∀ o, raw ≠ VObject o) →
       postProcessResult contract raw
       = Throw (ZodError [invalid_type "object" (getParsedType raw) []]))
  ∧ ((∃ x, postProcessResult contract raw = Ok x)
     ∨ (∃ issues, postProcessResult contract raw = Throw (ZodError issues))).
Proof.
  intros (_ & _ & _ & _ & _ & Hpost)%validateFunction_Ok Hname%String.eqb_neq.
  unfold returnTypeWrappedInObject, providedReturnTypeIsAnObject in Hpost.
  rewrite Hpost, Hname. clear Hpost. unfold safeParse.
  rewrite _parse_single_key_object by done.
  destruct raw as [| | | | | |o]; simpl;
    try (split_and!; [intros x; split; [done|by intros (o & ? & _)]
                     |done
                     |right; eauto]).
  pose proof (_parse_path_independent (returnType zodFunction) [Key "result"] []
                (default VUndefined (own_property o "result"))) as Hsame.
  destruct (_parse (returnType zodFunction) [Key "result"] _) as [d|issues];
    destruct (_parse (returnType zodFunction) [] _) as [d'|issues'] eqn:Hd;
    simpl in Hsame; try done.
  - subst d'. rewrite member_single_key_object. split_and!.
    + intros x. split.
      * intros [= <-]. exists o. by rewrite Hd.
      * intros (o' & [= <-] & Hx). rewrite Hd in Hx. by injection Hx as <-.
    + intros Hno. by destruct (Hno o).
    + left. eauto.
  - split_and!.
    + intros x. split; [done|]. intros (o' & [= <-] & Hx). by rewrite Hd in Hx.
    + intros Hno. by destruct (Hno o).
    + right. eauto.
Qed.

Lemma postProcessResult_sound_witness :
  ∃ contract,
    validateFunction sample_fn = Ok contract
    ∧ postProcessResult contract (VString "Se7en")
      = Throw (ZodError [invalid_type "object" "string" []])
    ∧ postProcessResult contract
        (VObject [("note", VNull); ("result", VString "Se7en")])
      = Ok (VString "Se7en").
Proof.
  eexists. split; [reflexivity|].
  destruct (postProcessResult_sound sample_fn _ (VString "Se7en") eq_refl)
    as (_ & Hbare & _); [discriminate|].
  split; [by apply Hbare|].
  destruct (postProcessResult_sound sample_fn _
              (VObject [("note", VNull); ("result", VString "Se7en")]) eq_refl)
    as (Hiff & _); [discriminate|].
  apply Hiff. eexists. split; reflexivity.
Defined.

(** ** src/tools.ts: makeTool, continued *)

(** X5. [makeTool] accepts exactly the schemas with at most one argument and
    fails on the invariant otherwise. The schema it stores always has
    exactly one argument slot, so that the count invariant of [formatTools]
    holds for it, and keeps the return type and the description. *)
Theorem makeTool_arity (schema : ZodFunction) (impl : Value → Outcome) :
  ((length (parameters_items schema) ≤ 1)%nat →
     ∃ tool,
       makeTool schema impl = Ok tool
       ∧ length (parameters_items (zodFunctionSchema tool)) = 1%nat
       ∧ returnType (zodFunctionSchema tool) = returnType schema
       ∧ def_description (zodFunctionSchema tool) = def_description schema)
  ∧ ((1 < length (parameters_items schema))%nat →
       makeTool schema impl = Throw (InvariantFailed arity_message)).
Proof.
  split.
  - intros Hlen. eexists. split; [by apply makeTool_at_most_one_argument|done].
  - intros Hlen. unfold makeTool, invariant.
    destruct (length (parameters_items schema) <=? 1)%nat eqn:E; [|done].
    apply Nat.leb_le in E. lia.
Qed.

(** X6. An argument type that is an object type is stored as it is, and the
    user-supplied function is entered with the data parsed from the
    argument, not with the raw argument. *)
Theorem makeTool_object_argument
    (schema : ZodFunction) (impl : Value → Outcome) (A : ZodType) :
  parameters_items schema = [Some A] →
  typeName A = "ZodObject" →
  ∃ tool,
    makeTool schema impl = Ok tool
    ∧ parameters_items (zodFunctionSchema tool) = [Some A]
    ∧ ∀ raw data,
        safeParse A raw = success data →
        implementation tool [raw]
        = (parse_maybeAZodPromise (returnType schema) (impl data), [data]).
Proof.
  intros Hitems Hname%String.eqb_eq.
  assert (argumentType schema = Some A) as Harg.
  { unfold argumentType. by rewrite Hitems. }
  assert (shouldOverrideArgumentWithNestedInputKey (argumentType schema) = false)
    as Hshould.
  { rewrite Harg. simpl. by rewrite Hname. }
  eexists. split; [apply makeTool_at_most_one_argument; rewrite Hitems; simpl; lia|].
  simpl. split.
  - unfold overriddenFunctionSchema, overriddenArgumentType. by rewrite Hshould, Harg.
  - intros raw data Hparse.
    rewrite (callableImplementation_unwrapped _ _ _ Hshould), Harg. simpl.
    by rewrite (_parse_success_any_path _ _ [Index 0] _ _ Hparse).
Qed.

Lemma makeTool_object_argument_witness :
  ∃ tool,
    makeTool
      (describe (returns (args z_function [Some (z_object [("name", ZodString)])])
                   ZodString)
         "Resolves a contact by searching for them in the user's contacts")
      (λ input, Returns (get_property input "name"))
    = Ok tool
    ∧ implementation tool [VObject [("name", VString "Alice"); ("age", VNumber 30)]]
      = (Returns (VString "Alice"), [VObject [("name", VString "Alice")]]).
Proof.
  destruct (makeTool_object_argument
              (describe (returns (args z_function [Some (z_object [("name", ZodString)])])
                           ZodString)
                 "Resolves a contact by searching for them in the user's contacts")
              (λ input, Returns (get_property input "name"))
              (z_object [("name", ZodString)]) eq_refl eq_refl)
    as (tool & Htool & _ & Hcall).
  exists tool. split; [exact Htool|].
  rewrite (Hcall (VObject [("name", VString "Alice"); ("age", VNumber 30)])
             (VObject [("name", VString "Alice")]) eq_refl).
  reflexivity.
Defined.

(** X7. A schema without argument is stored with one [undefined] argument
    slot, and the callable passes whatever single argument it is given on
    to the user-supplied function, unchanged and unchecked. *)
Theorem makeTool_zero_argument (schema : ZodFunction) (impl : Value → Outcome) :
  parameters_items schema = [] →
  ∃ tool,
    makeTool schema impl = Ok tool
    ∧ parameters_items (zodFunctionSchema tool) = [None]
    ∧ ∀ raw,
        implementation tool [raw]
        = (parse_maybeAZodPromise (returnType schema) (impl raw), [raw]).
Proof.
  intros Hitems.
  assert (argumentType schema = None) as Harg.
  { unfold argumentType. by rewrite Hitems. }
  eexists. split; [apply makeTool_at_most_one_argument; rewrite Hitems; simpl; lia|].
  simpl. split.
  - unfold overriddenFunctionSchema, overriddenArgumentType. by rewrite Harg.
  - intros raw. rewrite callableImplementation_unwrapped by (by rewrite Harg).
    by rewrite Harg.
Qed.

Lemma makeTool_zero_argument_witness :
  makeTool weather_schema weather_implementation = Ok weather_tool
  ∧ parameters_items (zodFunctionSchema weather_tool) = [None]
  ∧ snd (implementation weather_tool [VObject [("city", VString "Oslo")]])
    = [VObject [("city", VString "Oslo")]].
Proof.
  destruct (makeTool_zero_argument weather_schema weather_implementation eq_refl)
    as (tool & Htool & Hstored & Hcall).
  assert (Ok tool = Ok weather_tool) as [= ->] by (rewrite <- Htool; reflexivity).
  split_and!; [exact Htool|exact Hstored|].
  by rewrite Hcall.
Defined.

(** X8. The callable of a tool built by [makeTool] cannot be called without
    argument, not even for a schema without argument: its parameter tuple
    has one slot, zod refuses the empty argument list, and the user-supplied
    function is not entered. *)
Theorem makeTool_callable_needs_one_argument
    (schema : ZodFunction) (impl : Value → Outcome) (tool : Tool) :
  makeTool schema impl = Ok tool →
  implementation tool []
  = (Raises (ZodError [invalid_arguments [too_small 1 []]]), []).
Proof. by intros [_ ->]%makeTool_Ok. Qed.

Lemma makeTool_callable_needs_one_argument_witness :
  makeTool weather_schema weather_implementation = Ok weather_tool
  ∧ implementation weather_tool []
    = (Raises (ZodError [invalid_arguments [too_small 1 []]]), []).
Proof.
  split; [reflexivity|].
  by apply (makeTool_callable_needs_one_argument weather_schema weather_implementation).
Defined.

(** ** src/tools.ts: formatTools on tools built by makeTool *)

(** X9. For a tool built by [makeTool] from a single argument type [T] that
    is not an object type, [formatTools] advertises as [parameters] the
    schema of an object with the single property [input], which holds the
    schema generated for [T] and is required unless [T] is [z.unknown()]. *)
Theorem formatTools_wrapped_parameters
    (schema : ZodFunction) (impl : Value → Outcome) (T : ZodType)
    (tool : Tool) (name : string) :
  makeTool schema impl = Ok tool →
  parameters_items schema = [Some T] →
  typeName T ≠ "ZodObject" →
  has_own (zodToJsonSchema (returnType schema)) "type" = true →
  ∃ entry,
    formatTools [(name, tool)] = Ok [entry]
    ∧ fn_name (tool_function entry) = name
    ∧ fn_parameters (tool_function entry)
      = Some [("type", VString "object");
              ("properties", VObject [("input", VObject (parseDef T))]);
              ("required",
               if String.eqb (typeName T) "ZodUnknown" then VUndefined
               else VArray [VString "input"]);
              ("description", VUndefined)].
Proof.
  intros Htool Hitems Hname%String.eqb_neq Hret.
  destruct (formattable_makeTool _ _ _ Htool) as [Hformattable _].
  rewrite Hret in Hformattable.
  destruct (formatTool_formattable name tool Hformattable)
    as (trimmedReturn & parameters & _ & Hparameters & Hentry).
  apply makeTool_Ok in Htool as [_ ->]. simpl in Hparameters.
  rewrite argumentType_overriddenFunctionSchema in Hparameters.
  unfold overriddenArgumentType, shouldOverrideArgumentWithNestedInputKey, argumentType
    in Hparameters.
  rewrite Hitems in Hparameters. simpl in Hparameters. rewrite Hname in Hparameters.
  simpl in Hparameters. destruct Hparameters as (trimmed & Htrim & ->).
  change (foldl _ [] [("input", T)]) with (foldl (λ o p, set_property o p.1 p.2) []
                                             [("input", T)]) in Htrim.
  fold (z_object [("input", T)]) in Htrim.
  rewrite trimGeneratedJsonSchema_single_key in Htrim. injection Htrim as <-.
  eexists. unfold formatTools. simpl. rewrite Hentry. simpl. done.
Qed.

Lemma formatTools_wrapped_parameters_witness :
  ∃ entry,
    formatTools [("reverse", reverse_tool)] = Ok [entry]
    ∧ fn_parameters (tool_function entry)
      = Some [("type", VString "object");
              ("properties", VObject [("input", VObject [("type", VString "string")])]);
              ("required", VArray [VString "input"]);
              ("description", VUndefined)].
Proof.
  destruct (formatTools_wrapped_parameters getPalindrome_schema reverse_implementation
              ZodString reverse_tool "reverse")
    as (entry & Hentry & _ & Hparameters); try reflexivity; [discriminate|].
  exists entry. split; [exact Hentry|exact Hparameters].
Defined.

(** ** src/tools.ts: handleToolCalls, continued *)

(** X10. [isToolCallRequested] is the guard of [handleToolCalls]. A message
    without [tool_calls] requests nothing. For a message that carries calls,
    [isToolCallRequested] is false exactly when [handleToolCalls] has nothing
    to do: it fulfils with no message and enters no function, whatever the
    registry. When it is true, a fulfilled batch holds one message for each
    call, hence at least one. *)
Theorem isToolCallRequested_guards_handleToolCalls
    (tools : ToolRecord) (calls : list ChatCompletionMessageToolCall) (order : list nat) :
  isToolCallRequested None = false
  ∧ (isToolCallRequested (Some calls) = false
     ↔ handleToolCalls tools calls order = (Fulfilled [], []))
  ∧ (isToolCallRequested (Some calls) = true →
     ∀ messages,
       fst (handleToolCalls tools calls order) = Fulfilled messages →
       length messages = length calls ∧ messages ≠ []).
Proof.
  split; [done|]. split.
  - split.
    + destruct calls; [by destruct order|discriminate].
    + intros Hnone. apply (f_equal fst) in Hnone. simpl in Hnone.
      apply Promise_all_Fulfilled_inv, (f_equal length) in Hnone.
      rewrite !length_map in Hnone. by destruct calls.
  - intros Hrequested messages Hmessages. simpl in Hmessages.
    apply Promise_all_Fulfilled_inv, (f_equal length) in Hmessages.
    rewrite !length_map in Hmessages.
    split; [done|]. intros ->. by destruct calls.
Qed.

(** X11. A request for a registered tool whose arguments are not JSON makes
    its call fail with the error of [JSON.parse] before the tool's
    implementation is called, and the batch rejects. *)
Theorem handleToolCalls_malformed_arguments
    (tools : ToolRecord) (toolCalls : list ChatCompletionMessageToolCall)
    (order : list nat) (call : ChatCompletionMessageToolCall) (tool : Tool) (e : Exn) :
  (∀ i, (i < length toolCalls)%nat → i ∈ order) →
  call ∈ toolCalls →
  own_property tools (name (function call)) = Some tool →
  JSON.parse (arguments (function call)) = Throw e →
  handleToolCall tools call = (Throw e, [])
  ∧ e = SyntaxError
  ∧ ∃ e', fst (handleToolCalls tools toolCalls order) = Rejected e'.
Proof.
  intros Hcover Hin Hown Hparse.
  assert (handleToolCall tools call = (Throw e, [])) as Hcall.
  { unfold handleToolCall, lookup_property. by rewrite Hown, Hparse. }
  split_and!; [done| |].
  - unfold JSON.parse in Hparse.
    destruct (JSON.value _ _) as [[v r]|]; [destruct (JSON.skip_ws r)|]; congruence.
  - apply handleToolCalls_rejects; [done|].
    apply Exists_exists. exists call. split; [done|]. exists e. by rewrite Hcall.
Qed.

Lemma handleToolCalls_malformed_arguments_witness :
  handleToolCall [("reverse", reverse_tool)]
    {| id := "7"; function := {| name := "reverse"; arguments := "{" |} |}
  = (Throw SyntaxError, [])
  ∧ ∃ e,
      fst (handleToolCalls [("reverse", reverse_tool)]
             [call_reverse "1" "hello";
              {| id := "7"; function := {| name := "reverse"; arguments := "{" |} |}]
             [0; 1]%nat)
      = Rejected e.
Proof.
  destruct (handleToolCalls_malformed_arguments [("reverse", reverse_tool)]
              [call_reverse "1" "hello";
               {| id := "7"; function := {| name := "reverse"; arguments := "{" |} |}]
              [0; 1]%nat
              {| id := "7"; function := {| name := "reverse"; arguments := "{" |} |}
              reverse_tool SyntaxError)
    as (Hcall & _ & Hbatch).
  - intros i Hi. apply list_elem_of_In. simpl in *. lia.
  - apply list_elem_of_In. simpl. tauto.
  - reflexivity.
  - reflexivity.
  - split; [exact Hcall|exact Hbatch].
Defined.

Lemma settle_all_Rejected_inv {A : Type} (promises : list (Completion A))
    (order : list nat) (e : Exn) :
  ∀ values,
    settle_all order promises values = Rejected e →
    ∃ i, promises !! i = Some (Throw e).
Proof.
  induction order as [|i order IH]; intros values; simpl.
  - by destruct (all_values values).
  - destruct (all_values values); [done|].
    destruct (promises !! i) as [[v|e']|] eqn:Hi.
    + apply IH.
    + intros [= ->]. eauto.
    + apply IH.
Qed.

Lemma settle_all_not_Pending {A : Type} (promises : list (Completion A))
    (order : list nat) :
  ∀ values,
    length values = length promises →
    (∀ i, values !! i = Some None → i ∈ order) →
    settle_all order promises values ≠ Pending.
Proof.
  induction order as [|i order IH]; intros values Hlen Hmissing; simpl.
  - destruct (all_values values) eqn:E; [done|].
    apply all_values_None in E as [j Hj]. apply Hmissing in Hj.
    by apply elem_of_nil in Hj.
  - destruct (all_values values) eqn:E; [done|].
    destruct (promises !! i) as [[v|e]|] eqn:Hi; [|done|].
    + apply IH; [by rewrite length_insert|].
      intros j Hj. destruct (decide (i = j)) as [->|Hne].
      * rewrite list_lookup_insert_eq in Hj; [done|].
        rewrite Hlen. by eapply lookup_lt_Some.
      * rewrite list_lookup_insert_ne in Hj by done.
        apply Hmissing, elem_of_cons in Hj as [->|Hj]; done.
    + apply IH; [done|]. intros j Hj. pose proof Hj as Hj'.
      apply Hmissing, elem_of_cons in Hj as [->|Hj]; [|done].
      apply lookup_lt_Some in Hj'. apply lookup_ge_None in Hi. lia.
Qed.

(** X13. When every call's promise settles, [handleToolCalls] settles too:
    it fulfils, or it rejects with the very error of one of its calls. *)
Theorem handleToolCalls_settles
    (tools : ToolRecord) (toolCalls : list ChatCompletionMessageToolCall)
    (order : list nat) :
  (∀ i, (i < length toolCalls)%nat → i ∈ order) →
  (∃ messages, fst (handleToolCalls tools toolCalls order) = Fulfilled messages)
  ∨ (∃ e call,
       fst (handleToolCalls tools toolCalls order) = Rejected e
       ∧ call ∈ toolCalls
       ∧ fst (handleToolCall tools call) = Throw e).
Proof.
  intros Hcover. unfold handleToolCalls. simpl.
  destruct (Promise_all order (map fst (map (handleToolCall tools) toolCalls)))
    as [messages|e|] eqn:Hall.
  - left. eauto.
  - right. exists e. unfold Promise_all in Hall.
    apply settle_all_Rejected_inv in Hall as [i Hi].
    change (map fst (map (handleToolCall tools) toolCalls))
      with (fst <$> (handleToolCall tools <$> toolCalls)) in Hi.
    rewrite !list_lookup_fmap in Hi.
    destruct (toolCalls !! i) as [call|] eqn:Hcall; [|done].
    exists call. simpl in Hi. split_and!; [done| |by injection Hi].
    by eapply list_elem_of_lookup_2.
  - exfalso. unfold Promise_all in Hall. revert Hall. apply settle_all_not_Pending.
    + by rewrite length_replicate.
    + intros i [_ Hi]%lookup_replicate. apply Hcover.
      by rewrite !length_map in Hi.
Qed.

Lemma handleToolCalls_settles_witness :
  ∃ call,
    fst (handleToolCalls [("reverse", reverse_tool)]
           [ill_typed_call; unknown_call] [1; 0]%nat)
    = Rejected (TypeError (ReadPropertyOfUndefined "implementation"))
    ∧ call ∈ [ill_typed_call; unknown_call]
    ∧ fst (handleToolCall [("reverse", reverse_tool)] call)
      = Throw (TypeError (ReadPropertyOfUndefined "implementation")).
Proof.
  destruct (handleToolCalls_settles [("reverse", reverse_tool)]
              [ill_typed_call; unknown_call] [1; 0]%nat)
    as [[messages Hfulfilled]|(e & call & Hrejected & Hin & Hcall)].
  - intros i Hi. apply list_elem_of_In. simpl in *. lia.
  - discriminate Hfulfilled.
  - assert (e = TypeError (ReadPropertyOfUndefined "implementation")) as ->.
    { vm_compute in Hrejected. by injection Hrejected as <-. }
    exists call. split_and!; [reflexivity|exact Hin|exact Hcall].
Defined.

(** ** src/ai.ts: makeAi *)

Lemma makeAi_accepted (options : AiFnOptions) (zodFunction : ZodFunction)
    (contract : FunctionContract) :
  validateFunction zodFunction = Ok contract →
  makeAi options zodFunction
  = Ok (λ argument,
          let request := completion_request options contract argument in
          (aiResult ← client options request;
           jsonResponse ←
             match choices aiResult !! 0%nat with
             | Some content => Ok content
             | None => Throw (TypeError (ReadPropertyOfUndefined "message"))
             end;
           parsed ← JSON.parse (default "null" jsonResponse);
           postProcessResult contract parsed,
           [request])).
Proof. intros H. unfold makeAi. by rewrite H. Qed.

Lemma _parse_object_refuses_non_object (t : ZodType) (path : list PathSegment) (v : Value) :
  typeName t = "ZodObject" →
  (∀ o, v ≠ VObject o) →
  _parse t path v = failure [invalid_type "object" (getParsedType v) path].
Proof.
  intros Hname Hv. induction t; simpl in *; try done.
  - destruct v; try done. by destruct (Hv properties).
  - by apply IHt.
Qed.

(** No contract lets a reply through that is not an object. *)
Lemma postProcessResult_refuses_non_object
    (zodFunction : ZodFunction) (contract : FunctionContract) (raw : Value) :
  validateFunction zodFunction = Ok contract →
  (∀ o, raw ≠ VObject o) →
  postProcessResult contract raw
  = Throw (ZodError [invalid_type "object" (getParsedType raw) []]).
Proof.
  intros (_ & _ & _ & _ & _ & ->)%validateFunction_Ok Hraw. unfold safeParse.
  rewrite (_parse_object_refuses_non_object _ _ _
             (typeName_returnTypeWrappedInObject _) Hraw).
  done.
Qed.

(** X15. The value a call returns is [postProcessResult] applied to the
    JSON in the content of the first choice of the reply; the other choices
    are not read. For a return type [T] that is not an object type and a
    reply [{ "result": r, ... }] with [r] valid under [T], the call returns
    the data parsed from [r]. *)
Theorem makeAi_returns_processed_reply
    (options : AiFnOptions) (zodFunction : ZodFunction) (contract : FunctionContract)
    (invoke : Value → Completion Value * list CompletionRequest)
    (argument : Value) (reply : ChatCompletion) (text : string)
    (others : list (option string)) (raw : Value) :
  validateFunction zodFunction = Ok contract →
  makeAi options zodFunction = Ok invoke →
  client options (completion_request options contract argument) = Ok reply →
  choices reply = Some text :: others →
  JSON.parse text = Ok raw →
  fst (invoke argument) = postProcessResult contract raw
  ∧ (typeName (returnType zodFunction) ≠ "ZodObject" →
     ∀ o x,
       raw = VObject o →
       safeParse (returnType zodFunction) (default VUndefined (own_property o "result"))
       = success x →
       fst (invoke argument) = Ok x).
Proof.
  intros Hok Hai Hclient Hchoices Hparse.
  rewrite (makeAi_accepted _ _ _ Hok) in Hai. injection Hai as <-.
  assert ((aiResult ← client options (completion_request options contract argument);
           jsonResponse ←
             match choices aiResult !! 0%nat with
             | Some content => Ok content
             | None => Throw (TypeError (ReadPropertyOfUndefined "message"))
             end;
           parsed ← JSON.parse (default "null" jsonResponse);
           postProcessResult contract parsed) = postProcessResult contract raw) as Hrun.
  { rewrite Hclient. simpl. rewrite Hchoices. simpl. by rewrite Hparse. }
  split; [exact Hrun|].
  intros Hname o x -> Hx. simpl. rewrite Hrun.
  pose proof (validateFunction_Ok _ _ Hok) as (_ & _ & _ & _ & _ & Hpost).
  rewrite Hpost. unfold returnTypeWrappedInObject, providedReturnTypeIsAnObject.
  apply String.eqb_neq in Hname. rewrite Hname. unfold safeParse.
  rewrite _parse_single_key_object by done.
  rewrite (_parse_success_any_path _ _ ([] ++ [Key "result"]) _ _ Hx).
  apply member_single_key_object.
Qed.

Lemma makeAi_returns_processed_reply_witness :
  ∃ invoke,
    makeAi (options_with (reply_with actors_reply)) actors_fn = Ok invoke
    ∧ fst (invoke (VString "villain")) = Ok (VArray [VString "a"; VString "b"]).
Proof.
  eexists. split; [reflexivity|].
  eapply (makeAi_returns_processed_reply (options_with (reply_with actors_reply))
            actors_fn _ _ (VString "villain") _ actors_reply [] _
            eq_refl eq_refl eq_refl eq_refl eq_refl).
  - discriminate.
  - reflexivity.
  - reflexivity.
Defined.

(** X16. A call fails, after its single request and without another one, in
    each of these cases and with these errors: the client fails, with the
    client's error; the reply has no choice, with the [TypeError] of reading
    [message] from [undefined]; the content of the first choice is not JSON,
    with the error of [JSON.parse]; the content is [null], or is JSON but
    not an object, with zod's error saying that an object was expected. *)
Theorem makeAi_failures
    (options : AiFnOptions) (zodFunction : ZodFunction) (contract : FunctionContract)
    (invoke : Value → Completion Value * list CompletionRequest) (argument : Value) :
  validateFunction zodFunction = Ok contract →
  makeAi options zodFunction = Ok invoke →
  length (snd (invoke argument)) = 1%nat
  ∧ (∀ e,
       client options (completion_request options contract argument) = Throw e →
       fst (invoke argument) = Throw e)
  ∧ (∀ reply,
       client options (completion_request options contract argument) = Ok reply →
       (choices reply = [] →
          fst (invoke argument) = Throw (TypeError (ReadPropertyOfUndefined "message")))
       ∧ (∀ others,
            choices reply = None :: others →
            fst (invoke argument)
            = Throw (ZodError [invalid_type "object" "null" []]))
       ∧ (∀ text others e,
            choices reply = Some text :: others →
            JSON.parse text = Throw e →
            fst (invoke argument) = Throw e)
       ∧ (∀ text others raw,
            choices reply = Some text :: others →
            JSON.parse text = Ok raw →
            (∀ o, raw ≠ VObject o) →
            fst (invoke argument)
            = Throw (ZodError [invalid_type "object" (getParsedType raw) []]))).
Proof.
  intros Hok Hai. rewrite (makeAi_accepted _ _ _ Hok) in Hai. injection Hai as <-.
  simpl. split_and!; [done| |].
  - by intros e ->.
  - intros reply ->. simpl. split_and!.
    + by intros ->.
    + intros others ->. simpl.
      change (JSON.parse "null") with (Ok VNull). simpl.
      by apply (postProcessResult_refuses_non_object _ _ VNull Hok).
    + intros text others e -> Hparse. simpl. by rewrite Hparse.
    + intros text others raw -> Hparse Hraw. simpl. rewrite Hparse. simpl.
      by apply (postProcessResult_refuses_non_object _ _ raw Hok).
Qed.

Lemma makeAi_failures_witness :
  ∃ invoke,
    makeAi (options_with (reply_with "Sure! Here is a list")) actors_fn = Ok invoke
    ∧ fst (invoke (VString "villain")) = Throw SyntaxError
    ∧ length (snd (invoke (VString "villain"))) = 1%nat.
Proof.
  eexists. split; [reflexivity|].
  destruct (makeAi_failures (options_with (reply_with "Sure! Here is a list"))
              actors_fn _ _ (VString "villain") eq_refl eq_refl)
    as (Hone & _ & Hreply).
  destruct (Hreply _ eq_refl) as (_ & _ & Hsyntax & _).
  split; [|exact Hone].
  by apply (Hsyntax "Sure! Here is a list" []).
Defined.

(** ** zod: parsing what was parsed *)

Lemma _parse_array_unfold (element : ZodType) path (l : list Value) :
  _parse (ZodArray element) path (VArray l) =
    match parse_elements (λ i x, _parse element (path ++ [Index i]) x) l 0%nat with
    | inl ds => success (VArray ds)
    | inr issues => failure issues
    end.
Proof. reflexivity. Qed.

Lemma _parse_object_unfold (shape : list (string * ZodType)) path
    (o : list (string * Value)) :
  _parse (ZodObject shape) path (VObject o) =
    match parse_shape
            (λ k tk, _parse tk (path ++ [Key k]) (default VUndefined (own_property o k)))
            (has_own o) shape with
    | inl ps => success (VObject (mergeObjectSync ps))
    | inr issues => failure issues
    end.
Proof. reflexivity. Qed.

Lemma parse_elements_inl (f : nat → Value → SafeParseReturn) (l : list Value) :
  ∀ i ds, parse_elements f l i = inl ds → Forall2 (λ x d, ∃ j, f j x = success d) l ds.
Proof.
  induction l as [|x l IH]; intros i ds; simpl.
  - intros [= <-]. constructor.
  - destruct (f i x) as [dx|] eqn:Hx; destruct (parse_elements f l (S i)) as [ds'|] eqn:Hl;
      simpl; try done.
    intros [= <-]. constructor; [eauto|by eapply IH].
Qed.

Lemma parse_elements_fixed (g : nat → Value → SafeParseReturn) (ds : list Value) :
  Forall (λ d, ∀ j, g j d = success d) ds →
  ∀ i, parse_elements g ds i = inl ds.
Proof.
  induction 1 as [|d ds Hd _ IH]; intros i; simpl; [done|].
  by rewrite Hd, IH.
Qed.

Lemma parse_shape_inl (f : string → ZodType → SafeParseReturn) (present : string → bool)
    (shape : list (string * ZodType)) :
  ∀ ps,
    parse_shape f present shape = inl ps →
    Forall2 (λ p q, q = (p.1, q.1.2, present p.1) ∧ f p.1 p.2 = success q.1.2) shape ps.
Proof.
  induction shape as [|[k t] shape IH]; intros ps; simpl.
  - intros [= <-]. constructor.
  - destruct (f k t) as [d|] eqn:Hd;
      destruct (parse_shape f present shape) as [ps'|] eqn:Hs; simpl; try done.
    intros [= <-]. constructor; [done|by apply IH].
Qed.

Lemma parse_shape_build (g : string → ZodType → SafeParseReturn) (present : string → bool)
    (shape : list (string * ZodType)) (ps : list (string * Value * bool)) :
  Forall2 (λ p q, q = (p.1, q.1.2, present p.1) ∧ g p.1 p.2 = success q.1.2) shape ps →
  parse_shape g present shape = inl ps.
Proof.
  induction 1 as [|[k t] [[k' d] b] shape ps [Hq Hd] _ IH]; simpl in *; [done|].
  rewrite Hd, IH. simpl. by rewrite Hq.
Qed.

Lemma mergeObjectSync_foldl (ps : list (string * Value * bool)) :
  mergeObjectSync ps = foldl merge_step [] ps.
Proof.
  unfold mergeObjectSync. generalize (@nil (string * Value)).
  induction ps as [|[[k v] b] ps IH]; intros acc; simpl; [done|].
  by rewrite IH.
Qed.

Lemma own_property_merge_other (ps : list (string * Value * bool)) (k : string) :
  ¬ In k (map (λ p, p.1.1) ps) →
  ∀ acc, own_property (foldl merge_step acc ps) k = own_property acc k.
Proof.
  induction ps as [|[[k' v] b] ps IH]; intros Hk acc; simpl in *; [done|].
  rewrite IH by tauto. unfold merge_step. simpl.
  destruct (is_set (k', v, b)); [|done].
  rewrite own_property_set_property.
  destruct (String.eqb k' k) eqn:E; [|done].
  apply String.eqb_eq in E. tauto.
Qed.

Lemma own_property_merge (ps : list (string * Value * bool)) (k : string) (d : Value)
    (b : bool) :
  NoDup (map (λ p, p.1.1) ps) →
  In (k, d, b) ps →
  ∀ acc,
    own_property (foldl merge_step acc ps) k
    = if is_set (k, d, b) then Some d else own_property acc k.
Proof.
  induction ps as [|[[k' v] b'] ps IH]; intros Hnodup Hin acc; simpl in *; [done|].
  apply NoDup_cons in Hnodup as [Hfresh Hnodup].
  destruct Hin as [[= -> -> ->]|Hin].
  - rewrite own_property_merge_other by (by rewrite <- list_elem_of_In).
    unfold merge_step. simpl. destruct (is_set (k, d, b)); [|done].
    by rewrite own_property_set_property, String.eqb_refl.
  - rewrite (IH Hnodup Hin). destruct (is_set (k, d, b)); [done|].
    unfold merge_step. simpl. destruct (is_set (k', v, b')); [|done].
    rewrite own_property_set_property.
    destruct (String.eqb k' k) eqn:E; [|done].
    apply String.eqb_eq in E as ->. exfalso. apply Hfresh.
    apply list_elem_of_In, in_map_iff. by exists (k, d, b).
Qed.

Lemma foldl_merge_step_ext (adjust : string * Value * bool → string * Value * bool)
    (ps : list (string * Value * bool)) :
  (∀ acc p, In p ps → merge_step acc (adjust p) = merge_step acc p) →
  ∀ acc, foldl merge_step acc (map adjust ps) = foldl merge_step acc ps.
Proof.
  induction ps as [|p ps IH]; intros Hext acc; simpl; [done|].
  rewrite Hext by (by left). apply IH. intros acc' p' Hp'. apply Hext. by right.
Qed.

Lemma is_set_false_undefined (k : string) (d : Value) (b : bool) :
  String.eqb k "__proto__" = false →
  is_set (k, d, b) = false → d = VUndefined.
Proof.
  unfold is_set. simpl. intros ->. simpl. intros [H _]%orb_false_iff.
  by destruct d.
Qed.

Lemma is_set_is_set (k : string) (d : Value) (b : bool) :
  is_set (k, d, is_set (k, d, b)) = is_set (k, d, b).
Proof.
  unfold is_set. simpl.
  by destruct (String.eqb k "__proto__"), (String.eqb (getParsedType d) "undefined"), b.
Qed.

(** Parsing the data of a successful parse again succeeds and returns the
    same data. *)
Lemma _parse_idempotent (t : ZodType) :
  WellFormed t →
  ∀ path path' v d, _parse t path v = success d → _parse t path' d = success d.
Proof.
  induction t as [| | | |element IH|shape IH|t d' IH] using ZodType_nested_ind;
    intros Hwf path path' v d.
  - simpl. destruct v; intros [= <-]; done.
  - simpl. destruct v; intros [= <-]; done.
  - simpl. destruct v; intros [= <-]; done.
  - simpl. by intros [= <-].
  - inversion_clear Hwf as [| | | |? Helement| |].
    destruct v as [| | | | |l|]; try done.
    rewrite _parse_array_unfold.
    destruct (parse_elements _ l 0%nat) as [ds|] eqn:Hds; [|done].
    intros [= <-]. rewrite _parse_array_unfold.
    rewrite parse_elements_fixed; [done|].
    apply parse_elements_inl in Hds.
    clear -Hds IH Helement. induction Hds as [|x dx l ds [j Hx] _ IHds]; constructor; [|done].
    intros i. by eapply IH.
  - inversion_clear Hwf as [| | | | |? Hnodup Hproto Hchildren|].
    destruct v as [| | | | | |o]; try done.
    rewrite _parse_object_unfold.
    destruct (parse_shape _ (has_own o) shape) as [ps|] eqn:Hps; [|done].
    intros [= <-]. rewrite _parse_object_unfold.
    apply parse_shape_inl in Hps.
    assert (map (λ q : string * Value * bool, q.1.1) ps = keys shape) as Hkeys.
    { clear -Hps. unfold keys.
      induction Hps as [|[k t] [[k' d] b] shape ps [Hq _] _ IHps]; simpl in *; [done|].
      injection Hq as -> _. by rewrite IHps. }
    set (F := mergeObjectSync ps).
    set (adjust := λ q : string * Value * bool, (q.1.1, q.1.2, has_own F q.1.1)).
    assert (∀ k d b, In (k, d, b) ps →
              own_property F k = if is_set (k, d, b) then Some d else None) as Hown.
    { intros k d b Hin. unfold F. rewrite mergeObjectSync_foldl.
      rewrite (own_property_merge ps k d b); [done| |done].
      by rewrite Hkeys. }
    rewrite (parse_shape_build _ _ _ (map adjust ps)).
    + f_equal. f_equal. unfold F. rewrite !mergeObjectSync_foldl.
      apply foldl_merge_step_ext. intros acc [[k d] b] Hin.
      unfold adjust, merge_step. simpl.
      assert (has_own F k = is_set (k, d, b)) as ->.
      { unfold has_own. rewrite (Hown k d b Hin). by destruct (is_set (k, d, b)). }
      by rewrite is_set_is_set.
    + apply Forall2_fmap_r, Forall2_same_length_lookup_2.
      { by eapply Forall2_length. }
      intros i [k t] [[k' d] b] Hshape Hq.
      destruct (Forall2_lookup_lr _ _ _ _ _ _ Hps Hshape Hq) as [Heq Hd].
      simpl in *. injection Heq as -> ->.
      split; [done|]. simpl.
      assert (In (k, d, has_own o k) ps) as Hin.
      { apply list_elem_of_In. by eapply list_elem_of_lookup_2. }
      assert (String.eqb k "__proto__" = false) as Hk.
      { apply String.eqb_neq. intros ->. apply Hproto.
        apply list_elem_of_In. apply list_elem_of_fmap. exists ("__proto__", t).
        split; [done|]. by eapply list_elem_of_lookup_2. }
      rewrite (Hown _ _ _ Hin).
      assert (default VUndefined (if is_set (k, d, has_own o k) then Some d else None) = d)
        as ->.
      { destruct (is_set (k, d, has_own o k)) eqn:E; [done|].
        simpl. symmetry. by eapply is_set_false_undefined. }
      rewrite Forall_forall in IH. rewrite Forall_forall in Hchildren.
      assert ((k, t) ∈ shape) as Hmem by (by eapply list_elem_of_lookup_2).
      eapply (IH _ Hmem); [by apply (Hchildren _ Hmem)|]. exact Hd.
  - inversion_clear Hwf. simpl. by eapply IH.
Qed.

(** ** src/ai.ts: postProcessResult, round trip *)

(** X17. What [postProcessResult] returns is valid under the declared return
    type as it stands (parsing it changes nothing), and handing it back,
    wrapped in [{ result: ... }] when the return type is not an object
    type, returns it unchanged. *)
Theorem postProcessResult_round_trip
    (zodFunction : ZodFunction) (contract : FunctionContract) (raw x : Value) :
  validateFunction zodFunction = Ok contract →
  WellFormed (returnType zodFunction) →
  postProcessResult contract raw = Ok x →
  safeParse (returnType zodFunction) x = success x
  ∧ postProcessResult contract
      (if String.eqb (typeName (returnType zodFunction)) "ZodObject" then x
       else VObject [("result", x)])
    = Ok x.
Proof.
  intros (_ & _ & _ & _ & _ & Hpost)%validateFunction_Ok Hwf.
  rewrite Hpost. clear Hpost.
  unfold returnTypeWrappedInObject, providedReturnTypeIsAnObject, safeParse.
  destruct (String.eqb (typeName (returnType zodFunction)) "ZodObject") eqn:Hname.
  - destruct (_parse (returnType zodFunction) [] raw) as [data|] eqn:Hraw; [|done].
    intros [= <-].
    by rewrite (_parse_idempotent _ Hwf _ [] _ _ Hraw).
  - rewrite !_parse_single_key_object by done.
    destruct raw as [| | | | | |o]; try done. simpl.
    destruct (_parse (returnType zodFunction) [Key "result"] _) as [d|] eqn:Hd; [|done].
    rewrite member_single_key_object. intros [= <-].
    rewrite (_parse_idempotent _ Hwf _ [] _ _ Hd).
    rewrite (_parse_idempotent _ Hwf _ [Key "result"] _ _ Hd).
    by rewrite member_single_key_object.
Qed.

Lemma postProcessResult_round_trip_witness :
  ∃ contract,
    validateFunction listing_fn = Ok contract
    ∧ postProcessResult contract
        (VObject [("result", VArray [VObject [("a", VNumber 1); ("b", VNumber 2)]])])
      = Ok (VArray [VObject [("a", VNumber 1)]])
    ∧ safeParse (returnType listing_fn) (VArray [VObject [("a", VNumber 1)]])
      = success (VArray [VObject [("a", VNumber 1)]])
    ∧ postProcessResult contract
        (VObject [("result", VArray [VObject [("a", VNumber 1)]])])
      = Ok (VArray [VObject [("a", VNumber 1)]]).
Proof.
  eexists. split; [reflexivity|]. split; [reflexivity|].
  apply (postProcessResult_round_trip listing_fn _
           (VObject [("result", VArray [VObject [("a", VNumber 1); ("b", VNumber 2)]])])
           (VArray [VObject [("a", VNumber 1)]]) eq_refl).
  - constructor. change (z_object [("a", ZodNumber)]) with (ZodObject [("a", ZodNumber)]).
    constructor.
    + repeat constructor. by intros H%elem_of_nil.
    + simpl. intros [H|[]]. discriminate.
    + repeat constructor.
  - reflexivity.
Defined.

(** ** src/tools.ts: a dispatched call, end to end *)

(** X18. A call to a tool built by [makeTool], with arguments that are JSON
    and conform to the stored argument schema, enters the user-supplied
    function once. When that function gives a value valid under the
    declared return type, the message carries the request's id and name and,
    as content, the text of the data parsed from that value; when the value
    is not valid, the call fails with zod's error although the function has
    run; when the function fails, the call fails with its error. *)
Theorem handleToolCall_of_made_tool
    (schema : ZodFunction) (impl : Value → Outcome) (tool : Tool)
    (tools : ToolRecord) (call : ChatCompletionMessageToolCall) (raw data : Value) :
  makeTool schema impl = Ok tool →
  own_property tools (name (function call)) = Some tool →
  JSON.parse (arguments (function call)) = Ok raw →
  safeParse (default ZodUnknown (argumentType (zodFunctionSchema tool))) raw
  = success data →
  ∃ argument,
    (if shouldOverrideArgumentWithNestedInputKey (argumentType schema)
     then member data "input" = Ok argument
     else argument = data)
    ∧ snd (handleToolCall tools call) = [argument]
    ∧ (∀ v d,
         await (impl argument) = Ok v →
         safeParse (returnType schema) v = success d →
         fst (handleToolCall tools call)
         = Ok {| role := "tool";
                 tool_call_id := id call;
                 msg_name := name (function call);
                 content := callResultAsString d |})
    ∧ (∀ v issues,
         await (impl argument) = Ok v →
         safeParse (returnType schema) v = failure issues →
         ∃ issues', fst (handleToolCall tools call) = Throw (ZodError issues'))
    ∧ (∀ e,
         await (impl argument) = Throw e →
         fst (handleToolCall tools call) = Throw e).
Proof.
  intros Htool Hown Hjson Hparse.
  rewrite (handleToolCall_own _ _ _ _ Hown Hjson).
  apply makeTool_Ok in Htool as [_ ->]. simpl in *.
  rewrite argumentType_overriddenFunctionSchema in Hparse.
  destruct (callableImplementation_success schema impl raw data Hparse)
    as (argument & Hargument & Hcall).
  exists argument. rewrite Hcall. simpl.
  pose proof (await_parse_maybeAZodPromise (returnType schema) (impl argument)) as Hawait.
  split_and!; try done.
  - intros v d Hv Hd. rewrite Hv, Hd in Hawait. by rewrite Hawait.
  - intros v issues Hv Hissues. rewrite Hv, Hissues in Hawait.
    destruct Hawait as [issues' ->]. eauto.
  - intros e He. rewrite He in Hawait. by rewrite Hawait.
Qed.

Lemma handleToolCall_of_made_tool_witness :
  handleToolCall [("reverse", reverse_tool)] (call_reverse "1" "hello")
  = (Ok {| role := "tool"; tool_call_id := "1"; msg_name := "reverse";
           content := Some "olleh" |},
     [VString "hello"]).
Proof.
  destruct (handleToolCall_of_made_tool getPalindrome_schema reverse_implementation
              reverse_tool [("reverse", reverse_tool)] (call_reverse "1" "hello")
              (VObject [("input", VString "hello")])
              (VObject [("input", VString "hello")])
              eq_refl eq_refl eq_refl eq_refl)
    as (argument & Hargument & Htrace & Hvalid & _).
  simpl in Hargument. injection Hargument as <-.
  apply injective_projections; [|exact Htrace].
  by apply (Hvalid (VString "olleh") (VString "olleh")).
Defined.
